(** * Forwarding container output to CloudWatch Logs: a model of [main.py]

    The program starts a Docker container, reads the chunks of its output
    stream and submits the lines of every chunk to a CloudWatch log stream.
    This file embeds the three classes of [main.py] ([CloudWatchLogger],
    [DockerRunner], [DockerCloudWatchLogger]) and [main] as functions in a
    state-and-exception monad, together with the two library functions the
    loop relies on ([bytes.decode("utf-8")] and [str.splitlines]), and proves
    the properties of the forwarding loop. *)

From Stdlib Require Import ZArith NArith Lia List Bool Ascii String.
From stdpp Require Import base tactics option list countable gmap.

Local Open Scope N_scope.

(** ** Python values *)

(** A Python [str] is a sequence of Unicode code points, a [bytes] object a
    sequence of octets. *)
Abbreviation str := (list N) (only parsing).
Abbreviation bytes := (list Byte.byte) (only parsing).

(** A [str] literal of ASCII characters. *)
Definition py (s : string) : str := map N_of_ascii (list_ascii_of_string s).

(** A [bytes] literal of ASCII characters, [b"..."]. *)
Definition pyb (s : string) : bytes := list_byte_of_string s.

(** ** [bytes.decode("utf-8")]

    The strict decoder: the well-formed byte sequences of the Unicode
    standard, everything else (a stray continuation byte, an overlong form, a
    surrogate, a value above U+10FFFF, a sequence cut short by the end of the
    input) is an error. [None] stands for [UnicodeDecodeError]. *)

Definition is_continuation (b : Byte.byte) : bool :=
  (0x80 <=? Byte.to_N b) && (Byte.to_N b <? 0xC0).

Definition cont_bits (b : Byte.byte) : N := Byte.to_N b - 0x80.

Fixpoint utf8_decode (bs : bytes) : option str :=
  match bs with
  | [] => Some []
  | b1 :: t1 =>
    let c1 := Byte.to_N b1 in
    if c1 <? 0x80 then cons c1 <$> utf8_decode t1
    else if c1 <? 0xC2 then None
    else if c1 <? 0xE0 then
      match t1 with
      | b2 :: t2 =>
        if is_continuation b2
        then cons ((c1 - 0xC0) * 64 + cont_bits b2) <$> utf8_decode t2
        else None
      | _ => None
      end
    else if c1 <? 0xF0 then
      match t1 with
      | b2 :: b3 :: t3 =>
        if is_continuation b2 && is_continuation b3
           && negb ((c1 =? 0xE0) && (Byte.to_N b2 <? 0xA0))
           && negb ((c1 =? 0xED) && (0xA0 <=? Byte.to_N b2))
        then cons ((c1 - 0xE0) * 4096 + cont_bits b2 * 64 + cont_bits b3)
               <$> utf8_decode t3
        else None
      | _ => None
      end
    else if c1 <? 0xF5 then
      match t1 with
      | b2 :: b3 :: b4 :: t4 =>
        if is_continuation b2 && is_continuation b3 && is_continuation b4
           && negb ((c1 =? 0xF0) && (Byte.to_N b2 <? 0x90))
           && negb ((c1 =? 0xF4) && (0x90 <=? Byte.to_N b2))
        then cons ((c1 - 0xF0) * 262144 + cont_bits b2 * 4096
                   + cont_bits b3 * 64 + cont_bits b4)
               <$> utf8_decode t4
        else None
      | _ => None
      end
    else None
  end.

Definition utf8_valid (bs : bytes) : Prop := is_Some (utf8_decode bs).

(** ** [str.splitlines()]

    The line boundaries of [str.splitlines]: LF, VT, FF, CR, FS, GS, RS, NEL,
    LINE SEPARATOR and PARAGRAPH SEPARATOR; CR LF counts as one boundary. *)

Definition line_boundaries : list N :=
  [0x0A; 0x0B; 0x0C; 0x0D; 0x1C; 0x1D; 0x1E; 0x85; 0x2028; 0x2029].

Definition is_linebreak (c : N) : bool :=
  existsb (N.eqb c) line_boundaries.

(** [splitlines_from cur s]: [cur] is the text read since the last boundary.
    A boundary closes the current line (empty or not); the end of the text
    closes it only when it is not empty, so a final boundary adds no empty
    line. The boundaries themselves are not kept ([keepends] is false). *)
Fixpoint splitlines_from (cur : str) (s : str) : list str :=
  match s with
  | [] => match cur with [] => [] | _ => [cur] end
  | c :: t =>
    if is_linebreak c then
      cur :: match t with
             | c2 :: t2 =>
               if (c =? 0x0D) && (c2 =? 0x0A)
               then splitlines_from [] t2
               else splitlines_from [] t
             | [] => splitlines_from [] t
             end
    else splitlines_from (cur ++ [c]) t
  end.

Definition splitlines (s : str) : list str := splitlines_from [] s.

(** ** Exceptions *)

(** The exception classes the program handles or lets through.
    [ClientError] stands for every exception of botocore that the program
    does not name, the [ParamValidationError] of the client included. *)
Inductive exn : Type :=
| ResourceAlreadyExistsException
| ResourceNotFoundException
| NoCredentialsError
| ClientError
| DockerException
| KeyboardInterrupt
| UnicodeDecodeError
| SystemExit (code : Z).

(** What a call to a collaborator can run into, whatever the state of the
    remote service: missing credentials, any other failure of the service or
    of the transport, a failure of the container runtime, or an interrupt
    (Ctrl-C) delivered while the call blocks. A call that the client refuses
    before any request, as it refuses [put_log_events] with an empty list of
    log events or with an empty message, is a [ServiceFailure] too. *)
Inductive fault : Type :=
| NoCredentials
| ServiceFailure
| RuntimeFailure
| Interrupt.

Definition exn_of_fault (f : fault) : exn :=
  match f with
  | NoCredentials => NoCredentialsError
  | ServiceFailure => ClientError
  | RuntimeFailure => DockerException
  | Interrupt => KeyboardInterrupt
  end.

(** ** The outside world *)

(** One entry of [logEvents]. *)
Record log_event : Type := LogEvent { timestamp : Z; message : str }.

(** The handle [containers.run] returns. *)
Record Container : Type := { container_id : str }.

(** What the program does to its collaborators, in the order it does it. A
    call is recorded when it is made, whether it then succeeds or raises. *)
Inductive event : Type :=
| Boto3Client (service_name key secret region : str)
| DockerFromEnv
| CreateLogGroup (logGroupName : str)
| CreateLogStream (logGroupName logStreamName : str)
| PutLogEvents (logGroupName logStreamName : str) (logEvents : list log_event)
| ContainersRun (image : str) (command : list str) (detach stdout stderr : bool)
| ContainerLogs (c : Container) (stream follow : bool)
| ContainerStop (c : Container)
| Print (text : str).

(** One step of the generator [container.logs(stream=True, follow=True)]:
    the next chunk, or an exception raised while waiting for it. The end of
    the list is the end of the stream (the container has exited). *)
Inductive pull : Type :=
| Chunk (data : bytes)
| Broken (f : fault).

(** The behaviour of the collaborators during one run. [client_fault] and
    [from_env_fault] are what [boto3.client(...)] and [docker.from_env()] run
    into, [sink_fault n] is what the [n]-th call to the CloudWatch client
    runs into, [clock n] the [n]-th reading of [int(time.time() * 1000)]. *)
Record Env : Type := {
  client_fault : option fault;
  from_env_fault : option fault;
  sink_fault : nat -> option fault;
  run_response : fault + Container;
  output : list pull;
  stop_fault : option fault;
  clock : nat -> Z
}.

(** The state that changes during a run: the log groups and log streams that
    exist in the remote service, the number of calls made to the CloudWatch
    client and of clock readings, and the events so far. *)
Record State : Type := {
  groups : gset (list N);
  streams : gset (list N * list N);
  sink_calls : nat;
  ticks : nat;
  trace : list event
}.

Definition record_event (ev : event) (st : State) : State :=
  {| groups := groups st; streams := streams st; sink_calls := sink_calls st;
     ticks := ticks st; trace := trace st ++ [ev] |}.

Definition count_sink_call (st : State) : State :=
  {| groups := groups st; streams := streams st;
     sink_calls := S (sink_calls st); ticks := ticks st; trace := trace st |}.

Definition count_tick (st : State) : State :=
  {| groups := groups st; streams := streams st; sink_calls := sink_calls st;
     ticks := S (ticks st); trace := trace st |}.

Definition add_group (g : str) (st : State) : State :=
  {| groups := {[g]} ∪ groups st; streams := streams st;
     sink_calls := sink_calls st; ticks := ticks st; trace := trace st |}.

Definition add_stream (g s : str) (st : State) : State :=
  {| groups := groups st; streams := {[(g, s)]} ∪ streams st;
     sink_calls := sink_calls st; ticks := ticks st; trace := trace st |}.

Definition initial_state : State :=
  {| groups := ∅; streams := ∅; sink_calls := 0%nat; ticks := 0%nat;
     trace := [] |}.

(** ** The monad: state and exceptions *)

Inductive result (A : Type) : Type :=
| Ok (a : A)
| Raise (e : exn).
Arguments Ok {A} a.
Arguments Raise {A} e.

Definition M (A : Type) : Type := State -> result A * State.

Definition ret {A} (a : A) : M A := fun st => (Ok a, st).

Definition raise {A} (e : exn) : M A := fun st => (Raise e, st).

Definition bind {A B} (c : M A) (k : A -> M B) : M B :=
  fun st =>
    match c st with
    | (Ok a, st') => k a st'
    | (Raise e, st') => (Raise e, st')
    end.

(** [try: c except ...]: [handler e] is the body of the [except] clause that
    matches [e], [None] when no clause does and [e] goes on. *)
Definition try_except {A} (c : M A) (handler : exn -> option (M A)) : M A :=
  fun st =>
    match c st with
    | (Ok a, st') => (Ok a, st')
    | (Raise e, st') =>
      match handler e with
      | Some h => h st'
      | None => (Raise e, st')
      end
    end.

Declare Scope py_scope.
Delimit Scope py_scope with py.
Notation "x <- c1 ;; c2" := (bind c1 (fun x => c2))
  (at level 100, c1 at next level, right associativity) : py_scope.
Notation "c1 ;; c2" := (bind c1 (fun _ => c2))
  (at level 100, right associativity) : py_scope.
Local Open Scope py_scope.

(** [for x in xs: body x], over a generator whose steps can raise. *)
Fixpoint for_each (xs : list pull) (body : bytes -> M unit) : M unit :=
  match xs with
  | [] => ret tt
  | Chunk data :: rest => body data ;; for_each rest body
  | Broken f :: _ => raise (exn_of_fault f)
  end.

(** [print(text)] *)
Definition print (text : str) : M unit :=
  fun st => (Ok tt, record_event (Print text) st).

(** [exit(code)] *)
Definition exit (code : Z) : M unit := raise (SystemExit code).

(** ** The program *)

Section Program.

Variable env : Env.

(** *** The CloudWatch client ([boto3.client("logs")])

    Every call is recorded and counted, then either runs into the fault the
    environment has in store for it or reaches the service. The service
    refuses to create what exists ([ResourceAlreadyExistsException]) and to
    use what does not ([ResourceNotFoundException]). The client's own
    refusal of the parameters of a call (an empty list of log events, an
    empty message) is one of the faults of the environment: a call that is
    said to meet no fault is a call that the client and the service
    accept. *)

Definition client_call (ev : event) (service : M unit) : M unit :=
  fun st =>
    let st' := count_sink_call (record_event ev st) in
    match sink_fault env (sink_calls st) with
    | Some f => (Raise (exn_of_fault f), st')
    | None => service st'
    end.

Definition create_log_group (logGroupName : str) : M unit :=
  client_call (CreateLogGroup logGroupName)
    (fun st =>
       if decide (logGroupName ∈ groups st)
       then (Raise ResourceAlreadyExistsException, st)
       else (Ok tt, add_group logGroupName st)).

Definition create_log_stream (logGroupName logStreamName : str) : M unit :=
  client_call (CreateLogStream logGroupName logStreamName)
    (fun st =>
       if decide (logGroupName ∈ groups st)
       then if decide ((logGroupName, logStreamName) ∈ streams st)
            then (Raise ResourceAlreadyExistsException, st)
            else (Ok tt, add_stream logGroupName logStreamName st)
       else (Raise ResourceNotFoundException, st)).

Definition put_log_events (logGroupName logStreamName : str)
    (logEvents : list log_event) : M unit :=
  client_call (PutLogEvents logGroupName logStreamName logEvents)
    (fun st =>
       if decide ((logGroupName, logStreamName) ∈ streams st)
       then (Ok tt, st)
       else (Raise ResourceNotFoundException, st)).

(** [boto3.client(service_name, aws_access_key_id=..., ...)] builds the
    client; no request is sent. *)
Definition boto3_client (service_name key secret region : str) : M unit :=
  fun st =>
    let st' := record_event (Boto3Client service_name key secret region) st in
    match client_fault env with
    | Some f => (Raise (exn_of_fault f), st')
    | None => (Ok tt, st')
    end.

(** [int(time.time() * 1000)] *)
Definition time_ms : M Z :=
  fun st => (Ok (clock env (ticks st)), count_tick st).

(** *** The Docker client *)

(** [docker.from_env()] *)
Definition docker_from_env : M unit :=
  fun st =>
    let st' := record_event DockerFromEnv st in
    match from_env_fault env with
    | Some f => (Raise (exn_of_fault f), st')
    | None => (Ok tt, st')
    end.

Definition containers_run (image : str) (command : list str)
    (detach stdout stderr : bool) : M Container :=
  fun st =>
    let st' := record_event (ContainersRun image command detach stdout stderr) st in
    match run_response env with
    | inl f => (Raise (exn_of_fault f), st')
    | inr c => (Ok c, st')
    end.

Definition container_logs (c : Container) (stream follow : bool)
  : M (list pull) :=
  fun st => (Ok (output env), record_event (ContainerLogs c stream follow) st).

Definition container_stop (c : Container) : M unit :=
  fun st =>
    let st' := record_event (ContainerStop c) st in
    match stop_fault env with
    | Some f => (Raise (exn_of_fault f), st')
    | None => (Ok tt, st')
    end.

(** *** [class CloudWatchLogger] *)

Record CloudWatchLogger : Type := {
  aws_access_key_id : str;
  aws_secret_access_key : str;
  aws_region : str
}.

Definition create_cloudwatch_client (self : CloudWatchLogger) : M unit :=
  boto3_client (py "logs") (aws_access_key_id self)
    (aws_secret_access_key self) (aws_region self).

(** [CloudWatchLogger.__init__] *)
Definition CloudWatchLogger_init (aws_access_key_id aws_secret_access_key
    aws_region : str) : M CloudWatchLogger :=
  let self :=
    {| aws_access_key_id := aws_access_key_id;
       aws_secret_access_key := aws_secret_access_key;
       aws_region := aws_region |} in
  create_cloudwatch_client self ;;
  ret self.

Definition create_or_get_log_group (self : CloudWatchLogger)
    (group_name : str) : M unit :=
  try_except (create_log_group group_name)
    (fun e => match e with
              | ResourceAlreadyExistsException => Some (ret tt)
              | _ => None
              end).

Definition create_or_get_log_stream (self : CloudWatchLogger)
    (group_name stream_name : str) : M unit :=
  try_except (create_log_stream group_name stream_name)
    (fun e => match e with
              | ResourceAlreadyExistsException => Some (ret tt)
              | _ => None
              end).

(** [[{"timestamp": int(time.time() * 1000), "message": line}
      for line in log_lines]]: the clock is read once per line. *)
Fixpoint log_events_of (log_lines : list str) : M (list log_event) :=
  match log_lines with
  | [] => ret []
  | line :: rest =>
    t <- time_ms ;;
    evs <- log_events_of rest ;;
    ret ({| timestamp := t; message := line |} :: evs)
  end.

Definition send_logs_to_cloudwatch (self : CloudWatchLogger)
    (group_name stream_name : str) (log_lines : list str) : M unit :=
  try_except
    (logEvents <- log_events_of log_lines ;;
     put_log_events group_name stream_name logEvents)
    (fun e => match e with
              | NoCredentialsError =>
                Some (print (py "AWS credentials are invalid.") ;; exit 1)
              | _ => None
              end).

(** *** [class DockerRunner] *)

Record DockerRunner : Type := {
  docker_image : str;
  bash_command : str
}.

(** [DockerRunner.__init__] *)
Definition DockerRunner_init (docker_image bash_command : str)
  : M DockerRunner :=
  let self :=
    {| docker_image := docker_image; bash_command := bash_command |} in
  docker_from_env ;;
  ret self.

Definition run_container (self : DockerRunner) : M Container :=
  containers_run (docker_image self)
    [py "bash"; py "-c"; py "python -u -c '" ++ bash_command self ++ py "'"]
    true true true.

(** *** [class DockerCloudWatchLogger] *)

Record DockerCloudWatchLogger : Type := {
  docker_runner : DockerRunner;
  cloudwatch_logger : CloudWatchLogger;
  aws_cloudwatch_group : str;
  aws_cloudwatch_stream : str
}.

(** [DockerCloudWatchLogger.__init__] *)
Definition DockerCloudWatchLogger_init (docker_runner : DockerRunner)
    (cloudwatch_logger : CloudWatchLogger)
    (aws_cloudwatch_group aws_cloudwatch_stream : str)
  : DockerCloudWatchLogger :=
  {| docker_runner := docker_runner;
     cloudwatch_logger := cloudwatch_logger;
     aws_cloudwatch_group := aws_cloudwatch_group;
     aws_cloudwatch_stream := aws_cloudwatch_stream |}.

(** [log_line.decode("utf-8")] *)
Definition decode (data : bytes) : M str :=
  match utf8_decode data with
  | Some text => ret text
  | None => raise UnicodeDecodeError
  end.

(** The body of the [for] loop. *)
Definition forward_chunk (self : DockerCloudWatchLogger) (log_line : bytes)
  : M unit :=
  text <- decode log_line ;;
  send_logs_to_cloudwatch (cloudwatch_logger self)
    (aws_cloudwatch_group self) (aws_cloudwatch_stream self) (splitlines text).

(** The [try] block: the [for] loop over [container.logs(...)]. *)
Definition forward_logs (self : DockerCloudWatchLogger) (container : Container)
  : M unit :=
  chunks <- container_logs container true true ;;
  for_each chunks (forward_chunk self).

Definition run_container_and_log (self : DockerCloudWatchLogger) : M unit :=
  create_or_get_log_group (cloudwatch_logger self) (aws_cloudwatch_group self) ;;
  create_or_get_log_stream (cloudwatch_logger self)
    (aws_cloudwatch_group self) (aws_cloudwatch_stream self) ;;
  container <- run_container (docker_runner self) ;;
  try_except (forward_logs self container)
    (fun e => match e with
              | KeyboardInterrupt =>
                Some (print (py "Interrupted. Stopping the container...") ;;
                      container_stop container)
              | _ => None
              end).

(** *** [main] *)

(** The parsed command line. *)
Record Args : Type := {
  arg_docker_image : str;
  arg_bash_command : str;
  arg_aws_cloudwatch_group : str;
  arg_aws_cloudwatch_stream : str;
  arg_aws_access_key_id : str;
  arg_aws_secret_access_key : str;
  arg_aws_region : str
}.

Definition main (args : Args) : M unit :=
  cloudwatch_logger <-
    CloudWatchLogger_init (arg_aws_access_key_id args)
      (arg_aws_secret_access_key args) (arg_aws_region args) ;;
  docker_runner <-
    DockerRunner_init (arg_docker_image args) (arg_bash_command args) ;;
  let logger :=
    DockerCloudWatchLogger_init docker_runner cloudwatch_logger
      (arg_aws_cloudwatch_group args) (arg_aws_cloudwatch_stream args) in
  run_container_and_log logger.

End Program.

(** The exit status of the interpreter: 0 when [main] returns, the code of a
    [SystemExit], 130 for an uncaught [KeyboardInterrupt] (death by SIGINT),
    1 for any other uncaught exception. *)
Definition exit_status (r : result unit) : Z :=
  match r with
  | Ok _ => 0
  | Raise (SystemExit code) => code
  | Raise KeyboardInterrupt => 130
  | Raise _ => 1
  end.

(** ** Reading a trace *)

(** The batches of lines submitted, one per [put_log_events] call. *)
Definition appended (t : list event) : list (list str) :=
  omap (fun ev => match ev with
                  | PutLogEvents _ _ evs => Some (map message evs)
                  | _ => None
                  end) t.

(** The clock readings attached to the lines of one batch, from reading
    number [n] on. *)
Fixpoint stamp (env : Env) (n : nat) (lines : list str) : list log_event :=
  match lines with
  | [] => []
  | line :: rest =>
    {| timestamp := clock env n; message := line |} :: stamp env (S n) rest
  end.

(** The [put_log_events] calls that submit the given batches one after the
    other, from clock reading number [n] on. *)
Fixpoint appends (env : Env) (g s : str) (n : nat) (batches : list (list str))
  : list event :=
  match batches with
  | [] => []
  | lines :: rest =>
    PutLogEvents g s (stamp env n lines)
      :: appends env g s (n + length lines) rest
  end.

(** The state after one more call to the CloudWatch client. *)
Definition called (ev : event) (st : State) : State :=
  count_sink_call (record_event ev st).

(** The state after [lines] have been stamped and submitted in one call. *)
Definition submitted (env : Env) (g s : str) (lines : list str) (st : State)
  : State :=
  {| groups := groups st; streams := streams st;
     sink_calls := S (sink_calls st);
     ticks := ticks st + length lines;
     trace := trace st ++ [PutLogEvents g s (stamp env (ticks st) lines)] |}.

(** The state after the batches have been submitted one after the other. *)
Definition forwarded (env : Env) (g s : str) (batches : list (list str))
    (st : State) : State :=
  {| groups := groups st; streams := streams st;
     sink_calls := sink_calls st + length batches;
     ticks := ticks st + length (concat batches);
     trace := trace st ++ appends env g s (ticks st) batches |}.

(** The four calls that precede the loop: the two creations, the launch of
    the container and the request for its output. *)
Definition preamble (self : DockerCloudWatchLogger) (c : Container)
  : list event :=
  [CreateLogGroup (aws_cloudwatch_group self);
   CreateLogStream (aws_cloudwatch_group self) (aws_cloudwatch_stream self);
   ContainersRun (docker_image (docker_runner self))
     [py "bash"; py "-c";
      py "python -u -c '" ++ bash_command (docker_runner self) ++ py "'"]
     true true true;
   ContainerLogs c true true].

(** The state in which the loop starts. *)
Definition started (self : DockerCloudWatchLogger) (c : Container)
    (st : State) : State :=
  {| groups := {[aws_cloudwatch_group self]} ∪ groups st;
     streams :=
       {[(aws_cloudwatch_group self, aws_cloudwatch_stream self)]} ∪ streams st;
     sink_calls := S (S (sink_calls st));
     ticks := ticks st;
     trace := trace st ++ preamble self c |}.

(** The [except KeyboardInterrupt] clause of [run_container_and_log]. *)
Definition on_interrupt (env : Env) (container : Container)
  : exn -> option (M unit) :=
  fun e => match e with
           | KeyboardInterrupt =>
             Some (print (py "Interrupted. Stopping the container...") ;;
                   container_stop env container)
           | _ => None
           end.

(** The events of the forwarding loop and of its [except] clause. *)
Definition loop_event (ev : event) : Prop :=
  match ev with
  | PutLogEvents _ _ _ | Print _ | ContainerStop _ => True
  | _ => False
  end.

(** [data] is the UTF-8 encoding of [text]. *)
Definition decodes (data : bytes) (text : str) : Prop :=
  utf8_decode data = Some text.

(** No character of [text] is a line boundary. *)
Definition unbroken (text : str) : Prop :=
  Forall (fun c => is_linebreak c = false) text.

(** [text] is empty or ends in a line boundary. *)
Definition ends_line (text : str) : Prop :=
  text = [] \/ exists t b, text = t ++ [b] /\ is_linebreak b = true.

(** ** Sample runs *)

(** The line feed, as a one-character string. *)
Definition LF : string := String (ascii_of_nat 10) EmptyString.

Definition sample_logger : DockerCloudWatchLogger :=
  {| docker_runner :=
       {| docker_image := py "python"; bash_command := py "print(1)" |};
     cloudwatch_logger :=
       {| aws_access_key_id := py "AKIA"; aws_secret_access_key := py "secret";
          aws_region := py "eu-west-1" |};
     aws_cloudwatch_group := py "group";
     aws_cloudwatch_stream := py "stream" |}.

Definition sample_container : Container := {| container_id := py "c0" |}.

(** An environment in which the container starts and stopping it works. *)
Definition sample_env (faults : nat -> option fault) (out : list pull) : Env :=
  {| client_fault := None; from_env_fault := None;
     sink_fault := faults; run_response := inr sample_container;
     output := out; stop_fault := None; clock := fun n => Z.of_nat n |}.

Definition no_fault : nat -> option fault := fun _ => None.

(** The [n]-th call to the CloudWatch client meets [f], no other call meets
    anything. *)
Definition fault_at (n : nat) (f : fault) : nat -> option fault :=
  fun i => if Nat.eqb i n then Some f else None.

(** The boundary [b] and the first character of [rest] form one CR LF. *)
Definition crlf_across (b : N) (rest : str) : bool :=
  (b =? 0x0D) && match rest with c :: _ => c =? 0x0A | [] => false end.

(** ** Further readings of a trace *)

(** The timestamps submitted, in the order of submission. *)
Definition timestamps (t : list event) : list Z :=
  concat (omap (fun ev => match ev with
                          | PutLogEvents _ _ evs => Some (map timestamp evs)
                          | _ => None
                          end) t).

(** The texts printed. *)
Definition printed (t : list event) : list str :=
  omap (fun ev => match ev with Print text => Some text | _ => None end) t.

(** The containers on which [stop] was called. *)
Definition stopped (t : list event) : list Container :=
  omap (fun ev => match ev with ContainerStop c => Some c | _ => None end) t.

(** The log group and log stream of every submission. *)
Definition targets (t : list event) : list (list N * list N) :=
  omap (fun ev => match ev with
                  | PutLogEvents g s _ => Some (g, s)
                  | _ => None
                  end) t.

(** The characters that are not line boundaries. *)
Definition visible (c : N) : bool := negb (is_linebreak c).

(** Bytes below 128 only. *)
Definition ascii_only (data : bytes) : Prop :=
  Forall (fun b => Byte.to_N b < 128) data.

(** * Properties *)

(** ** The library functions on samples *)

Example splitlines_sample :
  splitlines (py "ab" ++ [0x0D; 0x0A] ++ py "c" ++ [0x0A; 0x0A] ++ py "d")
  = [py "ab"; py "c"; []; py "d"].
Proof. reflexivity. Qed.

Example utf8_decode_sample :
  utf8_decode [Byte.x61; Byte.xc3; Byte.xa9; Byte.xe2; Byte.x80; Byte.xa8;
               Byte.xf0; Byte.x9f; Byte.x98; Byte.x80]
  = Some [0x61; 0xE9; 0x2028; 0x1F600].
Proof. reflexivity. Qed.


(** ** [str.splitlines] *)

Arguments is_linebreak : simpl never.
Arguments py : simpl never.

Lemma is_linebreak_spec c : is_linebreak c = true <-> In c line_boundaries.
Proof.
  unfold is_linebreak. rewrite existsb_exists. split.
  - intros (x & Hx & Heq). apply N.eqb_eq in Heq. now subst.
  - intros Hc. exists c. split; [assumption | apply N.eqb_refl].
Qed.

Lemma splitlines_from_boundary cur b rest :
  is_linebreak b = true -> crlf_across b rest = false ->
  splitlines_from cur (b :: rest) = cur :: splitlines_from [] rest.
Proof.
  intros Hb Hx. simpl. rewrite Hb. f_equal.
  destruct rest as [|c2 t2]; [reflexivity |].
  unfold crlf_across in Hx. now rewrite Hx.
Qed.

Lemma splitlines_from_char cur c rest :
  is_linebreak c = false ->
  splitlines_from cur (c :: rest) = splitlines_from (cur ++ [c]) rest.
Proof. intros Hc. simpl. now rewrite Hc. Qed.

(** A text without boundary is one line, unless there is nothing at all. *)
Lemma splitlines_from_unbroken l : forall cur,
  unbroken l ->
  splitlines_from cur l = match cur ++ l with [] => [] | _ => [cur ++ l] end.
Proof.
  induction l as [|c l IH]; intros cur Hl.
  - rewrite app_nil_r. reflexivity.
  - inversion Hl as [|? ? Hc Hl']; subst.
    rewrite splitlines_from_char by assumption.
    rewrite IH by assumption. now rewrite <- app_assoc.
Qed.

(** A line followed by one boundary is that line. *)
Lemma splitlines_from_line l b : forall cur,
  unbroken l -> is_linebreak b = true ->
  splitlines_from cur (l ++ [b]) = [cur ++ l].
Proof.
  induction l as [|c l IH]; intros cur Hl Hb.
  - simpl. rewrite Hb, app_nil_r. reflexivity.
  - inversion Hl as [|? ? Hc Hl']; subst.
    rewrite <- app_comm_cons, splitlines_from_char by assumption.
    rewrite IH by assumption. now rewrite <- app_assoc.
Qed.

(** Splitting distributes over a cut placed right after a boundary, provided
    the cut does not fall inside a CR LF. *)
Lemma splitlines_from_cut_bounded n : forall t cur b rest,
  (length t <= n)%nat ->
  is_linebreak b = true -> crlf_across b rest = false ->
  splitlines_from cur (t ++ b :: rest)
  = splitlines_from cur (t ++ [b]) ++ splitlines_from [] rest.
Proof.
  induction n as [|n IH]; intros t cur b rest Hn Hb Hx.
  - destruct t; [| simpl in Hn; lia]. simpl app.
    rewrite splitlines_from_boundary by assumption.
    simpl. now rewrite Hb.
  - destruct t as [|c t].
    { simpl app. rewrite splitlines_from_boundary by assumption.
      simpl. now rewrite Hb. }
    simpl in Hn. rewrite <- !app_comm_cons.
    destruct (is_linebreak c) eqn:Hc.
    + simpl. rewrite Hc. simpl. f_equal.
      destruct t as [|c2 t2].
      * simpl app. cbv beta iota.
        destruct ((c =? 13) && (b =? 10)) eqn:Hcrlf.
        -- reflexivity.
        -- rewrite splitlines_from_boundary by assumption.
           simpl. now rewrite Hb.
      * rewrite <- !app_comm_cons.
        destruct ((c =? 13) && (c2 =? 10)).
        -- apply IH; [simpl in Hn; lia | assumption | assumption].
        -- rewrite !app_comm_cons.
           apply IH; [simpl in *; lia | assumption | assumption].
    + rewrite !splitlines_from_char by assumption.
      apply IH; [lia | assumption | assumption].
Qed.

Lemma splitlines_cut t b rest :
  is_linebreak b = true -> crlf_across b rest = false ->
  splitlines (t ++ b :: rest) = splitlines (t ++ [b]) ++ splitlines rest.
Proof.
  intros Hb Hx. unfold splitlines.
  now apply (splitlines_from_cut_bounded (length t)).
Qed.

Lemma crlf_across_unbroken b rest :
  unbroken rest -> crlf_across b rest = false.
Proof.
  intros Hr. unfold crlf_across. destruct rest as [|c rest].
  - apply andb_false_r.
  - inversion Hr as [|? ? Hc _]; subst.
    destruct (N.eqb_spec c 10) as [->|Hne].
    + discriminate Hc.
    + apply andb_false_r.
Qed.

(** A trailing piece without boundary is forwarded as a line of its own. *)
Lemma splitlines_partial head partial :
  ends_line head -> partial <> [] -> unbroken partial ->
  splitlines (head ++ partial) = splitlines head ++ [partial].
Proof.
  intros Hhead Hne Hp.
  assert (Hlast : splitlines partial = [partial]).
  { unfold splitlines. rewrite splitlines_from_unbroken by assumption.
    simpl. destruct partial; [contradiction | reflexivity]. }
  destruct Hhead as [-> | (t & b & -> & Hb)].
  - simpl. assumption.
  - rewrite <- app_assoc. simpl.
    rewrite splitlines_cut; [| assumption | now apply crlf_across_unbroken].
    now rewrite Hlast.
Qed.

(** A text that does not end in a boundary ends in a piece without
    boundary, which starts at the beginning or right after a boundary. *)
Lemma trailing_piece text : forall ch,
  is_linebreak ch = false ->
  exists head partial,
    text ++ [ch] = head ++ partial
    /\ ends_line head /\ partial <> [] /\ unbroken partial.
Proof.
  induction text as [|x text IH] using rev_ind; intros ch Hch.
  - exists [], [ch]. repeat split; [now left | discriminate | now constructor].
  - destruct (is_linebreak x) eqn:Hx.
    + exists (text ++ [x]), [ch].
      repeat split; [right; now exists text, x | discriminate | now constructor].
    + destruct (IH x Hx) as (head & partial & Heq & Hhead & Hne & Hp).
      exists head, (partial ++ [ch]). repeat split.
      * now rewrite Heq, <- app_assoc.
      * assumption.
      * intros H. apply app_eq_nil in H. now destruct H.
      * apply Forall_app. split; [assumption | now constructor].
Qed.

(** No boundary character survives in a line. *)
Lemma splitlines_from_unbroken_lines n : forall s cur,
  (length s <= n)%nat -> unbroken cur ->
  Forall unbroken (splitlines_from cur s).
Proof.
  induction n as [|n IH]; intros s cur Hn Hcur.
  - destruct s; [| simpl in Hn; lia].
    simpl. destruct cur; repeat constructor; inversion Hcur; assumption.
  - destruct s as [|c t].
    { simpl. destruct cur; repeat constructor; inversion Hcur; assumption. }
    simpl in Hn. simpl. destruct (is_linebreak c) eqn:Hc.
    + constructor; [assumption |].
      destruct t as [|c2 t2].
      * simpl. constructor.
      * destruct ((c =? 13) && (c2 =? 10)).
        -- apply IH; [simpl in Hn; lia | constructor].
        -- apply IH; [lia | constructor].
    + apply IH; [lia |].
      apply Forall_app. split; [assumption | now repeat constructor].
Qed.

Lemma splitlines_unbroken s : Forall unbroken (splitlines s).
Proof.
  unfold splitlines.
  apply (splitlines_from_unbroken_lines (length s)); [lia | constructor].
Qed.

(** ** [bytes.decode] *)

Ltac decode_step IH :=
  match goal with
  | H : cons ?c <$> utf8_decode ?t = Some ?ta,
    Hb : utf8_decode ?b = Some ?tb |- context [utf8_decode (?t ++ ?b)] =>
    apply fmap_Some in H; destruct H as (ta' & Ht & ->);
    rewrite (IH t ta' b tb);
    [reflexivity | simpl in *; lia | assumption | assumption]
  end.

(** Two byte strings that decode on their own decode together, to the
    concatenation of their texts. *)
Lemma utf8_decode_app_bounded n : forall a ta b tb,
  (length a <= n)%nat ->
  utf8_decode a = Some ta -> utf8_decode b = Some tb ->
  utf8_decode (a ++ b) = Some (ta ++ tb).
Proof.
  induction n as [|n IH]; intros a ta b tb Hn Ha Hb.
  - destruct a; [| simpl in Hn; lia].
    simpl in Ha. injection Ha as <-. assumption.
  - destruct a as [|b1 t1].
    { simpl in Ha. injection Ha as <-. assumption. }
    simpl in Ha |- *.
    destruct (Byte.to_N b1 <? 128); [decode_step IH |].
    destruct (Byte.to_N b1 <? 194); [discriminate |].
    destruct (Byte.to_N b1 <? 224).
    { destruct t1 as [|b2 t2]; [discriminate |]. simpl.
      destruct (is_continuation b2); [decode_step IH | discriminate]. }
    destruct (Byte.to_N b1 <? 240).
    { destruct t1 as [|b2 [|b3 t3]]; try discriminate. simpl.
      match goal with
      | |- context [if ?c then _ else _] => destruct c
      end; [decode_step IH | discriminate]. }
    destruct (Byte.to_N b1 <? 245); [| discriminate].
    destruct t1 as [|b2 [|b3 [|b4 t4]]]; try discriminate. simpl.
    match goal with
    | |- context [if ?c then _ else _] => destruct c
    end; [decode_step IH | discriminate].
Qed.

Lemma utf8_decode_app a ta b tb :
  decodes a ta -> decodes b tb -> decodes (a ++ b) (ta ++ tb).
Proof. apply (utf8_decode_app_bounded (length a)). lia. Qed.

Lemma utf8_decode_concat chunks texts :
  Forall2 decodes chunks texts -> decodes (concat chunks) (concat texts).
Proof.
  induction 1 as [|data text chunks texts Hd _ IH]; [reflexivity |].
  simpl. now apply utf8_decode_app.
Qed.

(** When every piece is empty or ends in a line feed, the lines of the pieces
    are the lines of the whole. *)
Lemma splitlines_concat texts :
  Forall (fun text => text = [] \/ exists t, text = t ++ [10]) texts ->
  concat (map splitlines texts) = splitlines (concat texts).
Proof.
  induction 1 as [|text texts Ht _ IH]; [reflexivity |].
  simpl. rewrite IH. destruct Ht as [-> | (t & ->)]; [reflexivity |].
  rewrite <- app_assoc. simpl. symmetry. now apply splitlines_cut.
Qed.

(** ** States and traces *)

Lemma state_eq (a b : State) :
  groups a = groups b -> streams a = streams b ->
  sink_calls a = sink_calls b -> ticks a = ticks b -> trace a = trace b ->
  a = b.
Proof. destruct a, b; simpl; intros; subst; reflexivity. Qed.

Lemma appended_app t1 t2 : appended (t1 ++ t2) = appended t1 ++ appended t2.
Proof. unfold appended. apply omap_app. Qed.

Lemma stamp_message env lines : forall n, map message (stamp env n lines) = lines.
Proof. induction lines as [|l ls IH]; intros n; simpl; [| rewrite IH]; reflexivity. Qed.

Lemma appended_appends env g s batches : forall n,
  appended (appends env g s n batches) = batches.
Proof.
  induction batches as [|b bs IH]; intros n; [reflexivity |].
  simpl. rewrite stamp_message. f_equal. apply IH.
Qed.

Lemma exn_of_fault_neq_decode f : exn_of_fault f <> UnicodeDecodeError.
Proof. destruct f; discriminate. Qed.

(** ** The methods of [CloudWatchLogger] *)

Section Sink.

Variable env : Env.
Variable cw : CloudWatchLogger.

Lemma create_or_get_log_group_ok g st :
  sink_fault env (sink_calls st) = None ->
  create_or_get_log_group env cw g st
  = (Ok tt, add_group g (called (CreateLogGroup g) st)).
Proof.
  intros Hq.
  unfold create_or_get_log_group, try_except, create_log_group, client_call.
  rewrite Hq. fold (called (CreateLogGroup g) st).
  destruct (decide (g ∈ groups (called (CreateLogGroup g) st))) as [Hin|Hin].
  - unfold ret. f_equal. apply state_eq; try reflexivity.
    simpl in Hin |- *. symmetry.
    apply subseteq_union_1_L. now apply singleton_subseteq_l.
  - reflexivity.
Qed.

Lemma create_or_get_log_group_fault g st f :
  sink_fault env (sink_calls st) = Some f ->
  create_or_get_log_group env cw g st
  = (Raise (exn_of_fault f), called (CreateLogGroup g) st).
Proof.
  intros Hq.
  unfold create_or_get_log_group, try_except, create_log_group, client_call.
  rewrite Hq. destruct f; reflexivity.
Qed.

Lemma create_or_get_log_stream_ok g s st :
  sink_fault env (sink_calls st) = None -> g ∈ groups st ->
  create_or_get_log_stream env cw g s st
  = (Ok tt, add_stream g s (called (CreateLogStream g s) st)).
Proof.
  intros Hq Hg.
  unfold create_or_get_log_stream, try_except, create_log_stream, client_call.
  rewrite Hq. fold (called (CreateLogStream g s) st).
  destruct (decide (g ∈ groups (called (CreateLogStream g s) st))) as [_|Hn];
    [| contradiction].
  destruct (decide ((g, s) ∈ streams (called (CreateLogStream g s) st)))
    as [Hin|Hin].
  - unfold ret. f_equal. apply state_eq; try reflexivity.
    simpl in Hin |- *. symmetry.
    apply subseteq_union_1_L. now apply singleton_subseteq_l.
  - reflexivity.
Qed.

Lemma create_or_get_log_stream_fault g s st f :
  sink_fault env (sink_calls st) = Some f ->
  create_or_get_log_stream env cw g s st
  = (Raise (exn_of_fault f), called (CreateLogStream g s) st).
Proof.
  intros Hq.
  unfold create_or_get_log_stream, try_except, create_log_stream, client_call.
  rewrite Hq. destruct f; reflexivity.
Qed.

Lemma log_events_of_run lines : forall st,
  log_events_of env lines st
  = (Ok (stamp env (ticks st) lines),
     {| groups := groups st; streams := streams st;
        sink_calls := sink_calls st; ticks := ticks st + length lines;
        trace := trace st |}).
Proof.
  induction lines as [|l ls IH]; intros st.
  - simpl. unfold ret. f_equal. apply state_eq; simpl; auto with arith.
  - simpl. unfold bind at 1. unfold time_ms at 1.
    unfold bind at 1. rewrite IH. unfold ret. simpl. f_equal.
    apply state_eq; simpl; auto with arith.
Qed.

(** A submission that meets no fault and finds its log stream. *)
Lemma send_logs_ok g s lines st :
  sink_fault env (sink_calls st) = None -> (g, s) ∈ streams st ->
  send_logs_to_cloudwatch env cw g s lines st
  = (Ok tt, submitted env g s lines st).
Proof.
  intros Hq Hs.
  unfold send_logs_to_cloudwatch, try_except, bind.
  rewrite log_events_of_run.
  unfold put_log_events, client_call. simpl. rewrite Hq.
  destruct (decide ((g, s) ∈ streams st)) as [_|Hn]; [| contradiction].
  reflexivity.
Qed.

(** A submission that meets a fault: without credentials the message is
    printed and [exit(1)] raises [SystemExit]; any other exception goes on
    to the caller. *)
Lemma send_logs_fault g s lines st f :
  sink_fault env (sink_calls st) = Some f ->
  send_logs_to_cloudwatch env cw g s lines st
  = match f with
    | NoCredentials =>
      (Raise (SystemExit 1),
       record_event (Print (py "AWS credentials are invalid."))
         (submitted env g s lines st))
    | _ => (Raise (exn_of_fault f), submitted env g s lines st)
    end.
Proof.
  intros Hq.
  unfold send_logs_to_cloudwatch, try_except, bind.
  rewrite log_events_of_run.
  unfold put_log_events, client_call. simpl. rewrite Hq.
  destruct f; reflexivity.
Qed.

(** A submission to a log stream that does not exist. *)
Lemma send_logs_missing g s lines st :
  sink_fault env (sink_calls st) = None -> (g, s) ∉ streams st ->
  send_logs_to_cloudwatch env cw g s lines st
  = (Raise ResourceNotFoundException, submitted env g s lines st).
Proof.
  intros Hq Hs.
  unfold send_logs_to_cloudwatch, try_except, bind.
  rewrite log_events_of_run.
  unfold put_log_events, client_call. simpl. rewrite Hq.
  destruct (decide ((g, s) ∈ streams st)) as [Hin|_]; [contradiction |].
  reflexivity.
Qed.

Lemma create_or_get_log_stream_missing g s st :
  sink_fault env (sink_calls st) = None -> g ∉ groups st ->
  create_or_get_log_stream env cw g s st
  = (Raise ResourceNotFoundException, called (CreateLogStream g s) st).
Proof.
  intros Hq Hg.
  unfold create_or_get_log_stream, try_except, create_log_stream, client_call.
  rewrite Hq. fold (called (CreateLogStream g s) st).
  destruct (decide (g ∈ groups (called (CreateLogStream g s) st))) as [Hin|_];
    [contradiction | reflexivity].
Qed.

(** Whatever happens, a submission is one call, followed at most by the
    message about the credentials, and it never fails to decode. *)
Lemma send_logs_shape g s lines st :
  exists r st' evs,
    send_logs_to_cloudwatch env cw g s lines st = (r, st')
    /\ trace st' = trace st ++ evs /\ Forall loop_event evs
    /\ r <> Raise UnicodeDecodeError.
Proof.
  destruct (sink_fault env (sink_calls st)) as [f|] eqn:Hq.
  - rewrite (send_logs_fault g s lines st f Hq). destruct f.
    + eexists _, _, [_; _]. split; [reflexivity |]. simpl.
      rewrite <- app_assoc. repeat split; [repeat constructor | discriminate].
    + eexists _, _, [_]. repeat split; [repeat constructor | discriminate].
    + eexists _, _, [_]. repeat split; [repeat constructor | discriminate].
    + eexists _, _, [_]. repeat split; [repeat constructor | discriminate].
  - destruct (decide ((g, s) ∈ streams st)) as [Hs|Hs].
    + rewrite send_logs_ok by assumption.
      eexists _, _, [_]. repeat split; [repeat constructor | discriminate].
    + rewrite send_logs_missing by assumption.
      eexists _, _, [_]. repeat split; [repeat constructor | discriminate].
Qed.

End Sink.

(** ** The forwarding loop *)

Section Forwarding.

Variable env : Env.
Variable self : DockerCloudWatchLogger.

Local Abbreviation g := (aws_cloudwatch_group self).
Local Abbreviation s := (aws_cloudwatch_stream self).
Local Abbreviation body := (forward_chunk env self).

Lemma forward_chunk_ok data text st :
  decodes data text ->
  sink_fault env (sink_calls st) = None -> (g, s) ∈ streams st ->
  body data st = (Ok tt, submitted env g s (splitlines text) st).
Proof.
  intros Hd Hq Hs. unfold forward_chunk, bind, decode.
  rewrite Hd. unfold ret. now apply send_logs_ok.
Qed.

Lemma forward_chunk_fault data text st f :
  decodes data text ->
  sink_fault env (sink_calls st) = Some f ->
  body data st
  = match f with
    | NoCredentials =>
      (Raise (SystemExit 1),
       record_event (Print (py "AWS credentials are invalid."))
         (submitted env g s (splitlines text) st))
    | _ => (Raise (exn_of_fault f), submitted env g s (splitlines text) st)
    end.
Proof.
  intros Hd Hq. unfold forward_chunk, bind, decode.
  rewrite Hd. unfold ret. now apply send_logs_fault.
Qed.

Lemma forward_chunk_undecodable data st :
  utf8_decode data = None -> body data st = (Raise UnicodeDecodeError, st).
Proof.
  intros Hd. unfold forward_chunk, bind, decode. now rewrite Hd.
Qed.

Lemma forwarded_cons lines batches st :
  forwarded env g s batches (submitted env g s lines st)
  = forwarded env g s (lines :: batches) st.
Proof.
  apply state_eq; simpl; try reflexivity.
  - lia.
  - rewrite length_app. lia.
  - now rewrite <- app_assoc.
Qed.

Lemma forwarded_nil st : forwarded env g s [] st = st.
Proof.
  apply state_eq; simpl; try reflexivity; auto with arith.
  apply app_nil_r.
Qed.

(** The chunks that decode and are submitted without fault are forwarded one
    by one; the loop goes on with what follows them. *)
Lemma forward_chunks pre texts :
  Forall2 decodes pre texts ->
  forall st tail,
  (forall i, (i < length pre)%nat -> sink_fault env (sink_calls st + i) = None) ->
  (g, s) ∈ streams st ->
  for_each (map Chunk pre ++ tail) body st
  = for_each tail body (forwarded env g s (map splitlines texts) st).
Proof.
  induction 1 as [|data text pre texts Hd _ IH]; intros st tail Hq Hs.
  - simpl. now rewrite forwarded_nil.
  - simpl. unfold bind at 1.
    rewrite (forward_chunk_ok data text) ; [| assumption | | assumption].
    + rewrite IH.
      * now rewrite forwarded_cons.
      * intros i Hi. simpl.
        replace (S (sink_calls st + i)) with (sink_calls st + S i)%nat by lia.
        apply Hq. simpl. lia.
      * assumption.
    + rewrite <- (Nat.add_0_r (sink_calls st)). apply Hq. simpl. lia.
Qed.

(** A run whose two creations meet no fault and whose container starts
    reaches the loop. *)
Lemma run_reaches_loop c st :
  sink_fault env (sink_calls st) = None ->
  sink_fault env (S (sink_calls st)) = None ->
  run_response env = inr c ->
  run_container_and_log env self st
  = try_except (for_each (output env) body) (on_interrupt env c)
      (started self c st).
Proof.
  intros Hq0 Hq1 Hrun.
  unfold run_container_and_log. unfold bind at 1.
  rewrite create_or_get_log_group_ok by assumption.
  unfold bind at 1.
  rewrite create_or_get_log_stream_ok;
    [| assumption | simpl; apply elem_of_union_l, elem_of_singleton; reflexivity].
  unfold bind at 1. unfold run_container, containers_run. rewrite Hrun.
  unfold try_except, forward_logs, bind, container_logs, on_interrupt.
  match goal with
  | |- context [for_each _ _ ?a] =>
    replace a with (started self c st); [reflexivity |]
  end.
  apply state_eq; simpl; try reflexivity.
  now rewrite <- !app_assoc.
Qed.

Lemma started_stream c st : (g, s) ∈ streams (started self c st).
Proof. simpl. apply elem_of_union_l, elem_of_singleton. reflexivity. Qed.

(** The same run, after the chunks that are forwarded without fault. *)
Lemma run_forwards c st pre texts tail :
  run_response env = inr c ->
  output env = map Chunk pre ++ tail ->
  Forall2 decodes pre texts ->
  (forall i, (i < 2 + length pre)%nat ->
             sink_fault env (sink_calls st + i) = None) ->
  run_container_and_log env self st
  = try_except (for_each tail body) (on_interrupt env c)
      (forwarded env g s (map splitlines texts) (started self c st)).
Proof.
  intros Hrun Hout Hdec Hq.
  rewrite (run_reaches_loop c).
  - rewrite Hout. unfold try_except.
    rewrite (forward_chunks pre texts Hdec).
    + reflexivity.
    + intros i Hi. simpl.
      replace (S (S (sink_calls st + i))) with (sink_calls st + (2 + i))%nat
        by lia.
      apply Hq. lia.
    + apply started_stream.
  - rewrite <- (Nat.add_0_r (sink_calls st)). apply Hq. lia.
  - replace (S (sink_calls st)) with (sink_calls st + 1)%nat by lia.
    apply Hq. lia.
  - assumption.
Qed.

(** *** How the loop ends *)

Lemma forwarded_snoc batches lines st :
  submitted env g s lines (forwarded env g s batches st)
  = forwarded env g s (batches ++ [lines]) st.
Proof.
  revert st. induction batches as [|b bs IH]; intros st.
  - rewrite forwarded_nil. simpl app.
    rewrite <- forwarded_cons. now rewrite forwarded_nil.
  - rewrite <- app_comm_cons, <- !forwarded_cons. apply IH.
Qed.

Lemma loop_end c st :
  try_except (for_each [] body) (on_interrupt env c) st = (Ok tt, st).
Proof. reflexivity. Qed.

Lemma loop_undecodable c data rest st :
  utf8_decode data = None ->
  try_except (for_each (Chunk data :: rest) body) (on_interrupt env c) st
  = (Raise UnicodeDecodeError, st).
Proof.
  intros Hd. unfold try_except. simpl. unfold bind.
  now rewrite forward_chunk_undecodable.
Qed.

Lemma loop_fault c data text rest f st :
  decodes data text ->
  sink_fault env (sink_calls st) = Some f ->
  try_except (for_each (Chunk data :: rest) body) (on_interrupt env c) st
  = match f with
    | NoCredentials =>
      (Raise (SystemExit 1),
       record_event (Print (py "AWS credentials are invalid."))
         (submitted env g s (splitlines text) st))
    | Interrupt =>
      container_stop env c
        (record_event (Print (py "Interrupted. Stopping the container..."))
           (submitted env g s (splitlines text) st))
    | _ => (Raise (exn_of_fault f), submitted env g s (splitlines text) st)
    end.
Proof.
  intros Hd Hq. unfold try_except. simpl. unfold bind at 1.
  rewrite (forward_chunk_fault data text st f Hd Hq).
  destruct f; reflexivity.
Qed.

Lemma loop_broken c f rest st :
  try_except (for_each (Broken f :: rest) body) (on_interrupt env c) st
  = match f with
    | Interrupt =>
      container_stop env c
        (record_event (Print (py "Interrupted. Stopping the container...")) st)
    | _ => (Raise (exn_of_fault f), st)
    end.
Proof. destruct f; reflexivity. Qed.

(** *** What every run of the loop looks like *)

Lemma forward_chunk_shape data st :
  exists r st' evs,
    body data st = (r, st')
    /\ trace st' = trace st ++ evs /\ Forall loop_event evs
    /\ (r = Raise UnicodeDecodeError -> utf8_decode data = None).
Proof.
  unfold forward_chunk, bind, decode.
  destruct (utf8_decode data) as [text|] eqn:Hd.
  - unfold ret.
    destruct (send_logs_shape env (cloudwatch_logger self) g s
                (splitlines text) st) as (r & st' & evs & -> & Ht & Hev & Hr).
    exists r, st', evs. repeat split; try assumption. intros ->. contradiction.
  - exists (Raise UnicodeDecodeError), st, []. unfold raise.
    repeat split; [now rewrite app_nil_r | constructor].
Qed.

Lemma for_each_shape xs : forall st,
  exists r st' evs,
    for_each xs body st = (r, st')
    /\ trace st' = trace st ++ evs /\ Forall loop_event evs
    /\ (r = Raise UnicodeDecodeError ->
        exists data, In (Chunk data) xs /\ utf8_decode data = None).
Proof.
  induction xs as [|[data|f] xs IH]; intros st.
  - exists (Ok tt), st, []. repeat split;
      [now rewrite app_nil_r | constructor | discriminate].
  - simpl. unfold bind.
    destruct (forward_chunk_shape data st) as (r & st1 & evs & -> & Ht & Hev & Hr).
    destruct r as [[]|e].
    + destruct (IH st1) as (r2 & st2 & evs2 & -> & Ht2 & Hev2 & Hr2).
      exists r2, st2, (evs ++ evs2). repeat split.
      * now rewrite Ht2, Ht, app_assoc.
      * now apply Forall_app.
      * intros Hu. destruct (Hr2 Hu) as (d & Hin & Hd).
        exists d. split; [now right | assumption].
    + exists (Raise e), st1, evs. repeat split; try assumption.
      intros Hu. exists data. split; [now left | now apply Hr].
  - simpl. exists (Raise (exn_of_fault f)), st, []. unfold raise.
    repeat split; [now rewrite app_nil_r | constructor |].
    intros Hu. injection Hu as Hu. now apply exn_of_fault_neq_decode in Hu.
Qed.

Lemma loop_shape c xs st :
  exists r st' evs,
    try_except (for_each xs body) (on_interrupt env c) st = (r, st')
    /\ trace st' = trace st ++ evs /\ Forall loop_event evs
    /\ (r = Raise UnicodeDecodeError ->
        exists data, In (Chunk data) xs /\ utf8_decode data = None).
Proof.
  unfold try_except.
  destruct (for_each_shape xs st) as (r & st1 & evs & -> & Ht & Hev & Hr).
  destruct r as [[]|e].
  - exists (Ok tt), st1, evs. now repeat split.
  - destruct e; simpl;
      try (eexists _, st1, evs; split; [reflexivity |]; now repeat split).
    unfold bind, print, container_stop.
    destruct (stop_fault env) as [f|].
    + eexists _, _, (evs ++ [_; _]). split; [reflexivity |]. simpl.
      rewrite Ht, <- !app_assoc. repeat split.
      * apply Forall_app. split; [assumption | repeat constructor].
      * intros Hu. injection Hu as Hu. now apply exn_of_fault_neq_decode in Hu.
    + eexists _, _, (evs ++ [_; _]). split; [reflexivity |]. simpl.
      rewrite Ht, <- !app_assoc. repeat split.
      * apply Forall_app. split; [assumption | repeat constructor].
      * discriminate.
Qed.

(** *** The trace when the loop has forwarded some batches *)

Lemma trace_forwarded c batches st :
  trace (forwarded env g s batches (started self c st))
  = trace st ++ preamble self c ++ appends env g s (ticks st) batches.
Proof. simpl. now rewrite <- app_assoc. Qed.

Lemma appended_preamble c : appended (preamble self c) = [].
Proof. reflexivity. Qed.

Lemma appended_forwarded c batches st :
  appended (trace (forwarded env g s batches (started self c st)))
  = appended (trace st) ++ batches.
Proof.
  rewrite trace_forwarded, !appended_app, appended_preamble, appended_appends.
  reflexivity.
Qed.

(** The run up to the chunk whose submission meets a fault. *)
Lemma run_fault_at c st pre texts data text rest f :
  run_response env = inr c ->
  output env = map Chunk pre ++ Chunk data :: rest ->
  Forall2 decodes pre texts -> decodes data text ->
  (forall i, (i < 2 + length pre)%nat ->
             sink_fault env (sink_calls st + i) = None) ->
  sink_fault env (sink_calls st + 2 + length pre) = Some f ->
  let reached :=
    forwarded env g s (map splitlines (texts ++ [text])) (started self c st) in
  run_container_and_log env self st
  = match f with
    | NoCredentials =>
      (Raise (SystemExit 1),
       record_event (Print (py "AWS credentials are invalid.")) reached)
    | Interrupt =>
      container_stop env c
        (record_event (Print (py "Interrupted. Stopping the container..."))
           reached)
    | _ => (Raise (exn_of_fault f), reached)
    end.
Proof.
  intros Hrun Hout Hdec Hd Hq Hf reached.
  rewrite (run_forwards c st pre texts _ Hrun Hout Hdec Hq).
  rewrite (loop_fault c data text rest f).
  - rewrite forwarded_snoc. subst reached. rewrite map_app. reflexivity.
  - assumption.
  - simpl. rewrite length_map.
    rewrite <- (Forall2_length _ _ _ Hdec).
    replace (S (S (sink_calls st + length pre)))
      with (sink_calls st + 2 + length pre)%nat by lia.
    assumption.
Qed.

End Forwarding.

(** ** [main] *)

(** [main] builds the CloudWatch client, then the Docker client, then runs
    the logger on the values of the command line: when both clients are
    built its result, and so the exit status of the process, is the result
    of [run_container_and_log]. *)
Lemma main_runs_logger env args st :
  client_fault env = None -> from_env_fault env = None ->
  main env args st
  = run_container_and_log env
      {| docker_runner :=
           {| docker_image := arg_docker_image args;
              bash_command := arg_bash_command args |};
         cloudwatch_logger :=
           {| aws_access_key_id := arg_aws_access_key_id args;
              aws_secret_access_key := arg_aws_secret_access_key args;
              aws_region := arg_aws_region args |};
         aws_cloudwatch_group := arg_aws_cloudwatch_group args;
         aws_cloudwatch_stream := arg_aws_cloudwatch_stream args |}
      (record_event DockerFromEnv
         (record_event
            (Boto3Client (py "logs") (arg_aws_access_key_id args)
               (arg_aws_secret_access_key args) (arg_aws_region args)) st)).
Proof.
  intros Hc Hd.
  unfold main, CloudWatchLogger_init, create_cloudwatch_client, boto3_client,
    DockerRunner_init, docker_from_env, bind, ret.
  rewrite Hc, Hd. reflexivity.
Qed.

(** ** Completeness and order of the forwarding *)

(** C1 (amended): when the container starts, delivers finitely many chunks
    that are each valid UTF-8 on their own and then exits, and no call to the
    log service fails, the run returns normally after exactly one
    [put_log_events] call per chunk, in the order of the chunks, each
    carrying the lines of its chunk in order. Hence the lines submitted, read
    in order, are the lines of the chunks read in order; when every chunk
    ends in a line feed they are the lines of the whole output. The chunks
    [a\n] and [b\nc\n] give the two calls [a] and [b, c]; no chunk gives no
    call. *)
Theorem one_append_per_chunk env self c chunks texts st :
  run_response env = inr c ->
  output env = map Chunk chunks ->
  Forall2 decodes chunks texts ->
  (forall i, (i < 2 + length chunks)%nat ->
             sink_fault env (sink_calls st + i) = None) ->
  exists st',
    run_container_and_log env self st = (Ok tt, st')
    /\ trace st'
       = trace st ++ preamble self c
         ++ appends env (aws_cloudwatch_group self) (aws_cloudwatch_stream self)
              (ticks st) (map splitlines texts)
    /\ appended (trace st') = appended (trace st) ++ map splitlines texts
    /\ length (appended (trace st'))
       = (length (appended (trace st)) + length chunks)%nat
    /\ concat (appended (trace st'))
       = concat (appended (trace st)) ++ concat (map splitlines texts)
    /\ (Forall (fun text => text = [] \/ exists t, text = t ++ [10]) texts ->
        decodes (concat chunks) (concat texts)
        /\ concat (appended (trace st'))
           = concat (appended (trace st)) ++ splitlines (concat texts))
    /\ (chunks = [pyb ("a" ++ LF); pyb ("b" ++ LF ++ "c" ++ LF)] ->
        appended (trace st')
        = appended (trace st) ++ [[py "a"]; [py "b"; py "c"]])
    /\ (chunks = [] -> appended (trace st') = appended (trace st)).
Proof.
  intros Hrun Hout Hdec Hq.
  assert (Hlen : length texts = length chunks)
    by (symmetry; eapply Forall2_length; eassumption).
  rewrite <- (app_nil_r (map Chunk chunks)) in Hout.
  rewrite (run_forwards env self c st chunks texts [] Hrun Hout Hdec Hq).
  rewrite loop_end. eexists. split; [reflexivity |].
  assert (Happ : appended
            (trace (forwarded env (aws_cloudwatch_group self)
                      (aws_cloudwatch_stream self) (map splitlines texts)
                      (started self c st)))
          = appended (trace st) ++ map splitlines texts).
  { simpl. rewrite !appended_app, appended_appends. simpl.
    now rewrite app_nil_r. }
  split; [simpl; now rewrite <- app_assoc |].
  split; [exact Happ |].
  split; [rewrite Happ, length_app, length_map; lia |].
  split; [rewrite Happ; apply concat_app |].
  split; [| split].
  - intros Hal. split; [now apply utf8_decode_concat |].
    rewrite Happ, concat_app. f_equal. now apply splitlines_concat.
  - intros ->. rewrite Happ. f_equal.
    inversion Hdec as [|? t1 ? ? H1 Hdec']; subst.
    inversion Hdec' as [|? t2 ? ? H2 Hdec'']; subst.
    inversion Hdec''; subst.
    vm_compute in H1. vm_compute in H2.
    injection H1 as <-. injection H2 as <-. reflexivity.
  - intros ->. inversion Hdec; subst. rewrite Happ. apply app_nil_r.
Qed.

Lemma one_append_per_chunk_witness :
  exists st',
    run_container_and_log
      (sample_env no_fault
         [Chunk (pyb ("a" ++ LF)); Chunk (pyb ("b" ++ LF ++ "c" ++ LF))])
      sample_logger initial_state = (Ok tt, st')
    /\ appended (trace st') = [[py "a"]; [py "b"; py "c"]].
Proof.
  destruct (one_append_per_chunk
              (sample_env no_fault
                 [Chunk (pyb ("a" ++ LF)); Chunk (pyb ("b" ++ LF ++ "c" ++ LF))])
              sample_logger sample_container
              [pyb ("a" ++ LF); pyb ("b" ++ LF ++ "c" ++ LF)]
              [py ("a" ++ LF); py ("b" ++ LF ++ "c" ++ LF)]
              initial_state)
    as (st' & Hrun & _ & _ & _ & _ & _ & Hsample & _).
  - reflexivity.
  - reflexivity.
  - repeat constructor.
  - intros i _. reflexivity.
  - exists st'. split; [exact Hrun | exact (Hsample eq_refl)].
Defined.

(** The claim without the condition on the chunks fails: the output [aé\n]
    delivered in two chunks that cut the two-byte character in the middle
    makes the run raise [UnicodeDecodeError] before any submission, so two
    chunks are delivered and no call is made. *)
Lemma one_append_per_chunk_needs_utf8 :
  let chunks := [[Byte.x61; Byte.xc3]; [Byte.xa9; Byte.x0a]] in
  let env := sample_env no_fault (map Chunk chunks) in
  run_response env = inr sample_container
  /\ output env = map Chunk chunks
  /\ (forall n, sink_fault env n = None)
  /\ decodes (concat chunks) [0x61; 0xE9; 0x0A]
  /\ exists st',
       run_container_and_log env sample_logger initial_state
       = (Raise UnicodeDecodeError, st')
       /\ appended (trace st') = []
       /\ length (appended (trace st')) <> length chunks.
Proof.
  simpl. repeat split. eexists. split; [vm_compute; reflexivity |].
  split; [reflexivity | discriminate].
Qed.

(** ** Failures of a submission *)

(** C3 (amended): when a [put_log_events] call fails with anything but
    missing credentials or an interrupt, nothing catches the exception: it
    leaves the loop and the run, which ends with that exception and a
    non-zero exit status. The failed call is the last event of the run: no
    message is printed, no later chunk is read or submitted, and the
    container is not stopped. *)
Theorem other_append_failure_aborts env self c pre texts data text rest f st :
  run_response env = inr c ->
  output env = map Chunk pre ++ Chunk data :: rest ->
  Forall2 decodes pre texts -> decodes data text ->
  (forall i, (i < 2 + length pre)%nat ->
             sink_fault env (sink_calls st + i) = None) ->
  sink_fault env (sink_calls st + 2 + length pre) = Some f ->
  f <> NoCredentials -> f <> Interrupt ->
  exists st',
    run_container_and_log env self st = (Raise (exn_of_fault f), st')
    /\ trace st'
       = trace st ++ preamble self c
         ++ appends env (aws_cloudwatch_group self) (aws_cloudwatch_stream self)
              (ticks st) (map splitlines (texts ++ [text]))
    /\ appended (trace st')
       = appended (trace st) ++ map splitlines (texts ++ [text])
    /\ exit_status (Raise (exn_of_fault f)) = 1%Z.
Proof.
  intros Hrun Hout Hdec Hd Hq Hf Hn1 Hn2.
  rewrite (run_fault_at env self c st pre texts data text rest f)
    by assumption.
  destruct f; try contradiction;
    (eexists; split; [reflexivity |];
     split; [apply trace_forwarded |];
     split; [apply appended_forwarded | reflexivity]).
Qed.

Lemma other_append_failure_aborts_witness :
  exists st',
    run_container_and_log
      (sample_env (fault_at 2 ServiceFailure)
         [Chunk (pyb ("a" ++ LF)); Chunk (pyb ("b" ++ LF))])
      sample_logger initial_state = (Raise ClientError, st')
    /\ appended (trace st') = [[py "a"]].
Proof.
  destruct (other_append_failure_aborts
              (sample_env (fault_at 2 ServiceFailure)
                 [Chunk (pyb ("a" ++ LF)); Chunk (pyb ("b" ++ LF))])
              sample_logger sample_container
              [] [] (pyb ("a" ++ LF)) (py ("a" ++ LF))
              [Chunk (pyb ("b" ++ LF))] ServiceFailure initial_state)
    as (st' & Hrun & _ & Happ & _).
  - reflexivity.
  - reflexivity.
  - constructor.
  - reflexivity.
  - intros [|[|i]] Hi; [reflexivity | reflexivity | simpl in Hi; lia].
  - reflexivity.
  - discriminate.
  - discriminate.
  - exists st'. split; [exact Hrun | exact Happ].
Defined.

(** The claim as stated fails: the first of two chunks meets a failure of the
    service; the run ends with [ClientError], nothing is printed and the
    second chunk is never submitted. *)
Lemma transient_failure_is_not_skipped :
  let env :=
    sample_env (fault_at 2 ServiceFailure)
      [Chunk (pyb ("a" ++ LF)); Chunk (pyb ("b" ++ LF))] in
  sink_fault env 2 = Some ServiceFailure
  /\ exists st',
       run_container_and_log env sample_logger initial_state
       = (Raise ClientError, st')
       /\ appended (trace st') = [[py "a"]]
       /\ Forall (fun ev => forall text, ev <> Print text) (trace st')
       /\ exit_status (Raise ClientError) <> 0%Z.
Proof.
  simpl. split; [reflexivity |].
  eexists. split; [vm_compute; reflexivity |].
  split; [reflexivity |].
  split; [repeat constructor; discriminate | discriminate].
Qed.

(** C4: when a [put_log_events] call fails for lack of credentials, the
    message about the credentials is printed and [exit(1)] ends the run:
    that call is the last [put_log_events] call, the chunks still to come are
    never submitted, and the exit status is 1. *)
Theorem auth_failure_is_fatal env self c pre texts data text rest st :
  run_response env = inr c ->
  output env = map Chunk pre ++ Chunk data :: rest ->
  Forall2 decodes pre texts -> decodes data text ->
  (forall i, (i < 2 + length pre)%nat ->
             sink_fault env (sink_calls st + i) = None) ->
  sink_fault env (sink_calls st + 2 + length pre) = Some NoCredentials ->
  exists st',
    run_container_and_log env self st = (Raise (SystemExit 1), st')
    /\ trace st'
       = trace st ++ preamble self c
         ++ appends env (aws_cloudwatch_group self) (aws_cloudwatch_stream self)
              (ticks st) (map splitlines (texts ++ [text]))
         ++ [Print (py "AWS credentials are invalid.")]
    /\ appended (trace st')
       = appended (trace st) ++ map splitlines (texts ++ [text])
    /\ exit_status (fst (run_container_and_log env self st)) = 1%Z
    /\ exit_status (fst (run_container_and_log env self st)) <> 0%Z.
Proof.
  intros Hrun Hout Hdec Hd Hq Hf.
  rewrite (run_fault_at env self c st pre texts data text rest NoCredentials)
    by assumption.
  eexists. split; [reflexivity |].
  split; [| split; [| split; [reflexivity | discriminate]]].
  - unfold record_event. cbn [trace]. rewrite trace_forwarded.
    now rewrite <- !app_assoc.
  - unfold record_event. cbn [trace]. rewrite appended_app, appended_forwarded.
    apply app_nil_r.
Qed.

Lemma auth_failure_is_fatal_witness :
  exists st',
    run_container_and_log
      (sample_env (fault_at 3 NoCredentials)
         [Chunk (pyb ("a" ++ LF)); Chunk (pyb ("b" ++ LF));
          Chunk (pyb ("c" ++ LF))])
      sample_logger initial_state = (Raise (SystemExit 1), st')
    /\ appended (trace st') = [[py "a"]; [py "b"]].
Proof.
  destruct (auth_failure_is_fatal
              (sample_env (fault_at 3 NoCredentials)
                 [Chunk (pyb ("a" ++ LF)); Chunk (pyb ("b" ++ LF));
                  Chunk (pyb ("c" ++ LF))])
              sample_logger sample_container
              [pyb ("a" ++ LF)] [py ("a" ++ LF)]
              (pyb ("b" ++ LF)) (py ("b" ++ LF))
              [Chunk (pyb ("c" ++ LF))] initial_state)
    as (st' & Hrun & _ & Happ & _).
  - reflexivity.
  - reflexivity.
  - repeat constructor.
  - reflexivity.
  - intros [|[|[|i]]] Hi; [reflexivity .. | simpl in Hi; lia].
  - reflexivity.
  - exists st'. split; [exact Hrun | exact Happ].
Defined.

(** ** Interruption *)

Lemma container_stop_run env c st :
  container_stop env c st
  = (match stop_fault env with
     | Some f => Raise (exn_of_fault f)
     | None => Ok tt
     end, record_event (ContainerStop c) st).
Proof. unfold container_stop. destruct (stop_fault env); reflexivity. Qed.

(** C5 (amended): when [KeyboardInterrupt] is raised in the loop, either
    while the loop waits for the next chunk or during a submission, the
    notice is printed and [container.stop()] is called on the container that
    was started; these two are the last events of the run, so no
    [put_log_events] call follows the interrupt and the chunks not yet read
    are never submitted. When the call to [stop] returns normally, the run
    returns normally and the exit status is 0. *)
Theorem interrupt_stops_container env self c pre texts rest st :
  run_response env = inr c ->
  Forall2 decodes pre texts ->
  (forall i, (i < 2 + length pre)%nat ->
             sink_fault env (sink_calls st + i) = None) ->
  (output env = map Chunk pre ++ Broken Interrupt :: rest ->
   exists r st',
     run_container_and_log env self st = (r, st')
     /\ trace st'
        = trace st ++ preamble self c
          ++ appends env (aws_cloudwatch_group self)
               (aws_cloudwatch_stream self) (ticks st) (map splitlines texts)
          ++ [Print (py "Interrupted. Stopping the container...");
              ContainerStop c]
     /\ appended (trace st') = appended (trace st) ++ map splitlines texts
     /\ (stop_fault env = None -> r = Ok tt /\ exit_status r = 0%Z))
  /\ (forall data text,
      output env = map Chunk pre ++ Chunk data :: rest ->
      decodes data text ->
      sink_fault env (sink_calls st + 2 + length pre) = Some Interrupt ->
      exists r st',
        run_container_and_log env self st = (r, st')
        /\ trace st'
           = trace st ++ preamble self c
             ++ appends env (aws_cloudwatch_group self)
                  (aws_cloudwatch_stream self) (ticks st)
                  (map splitlines (texts ++ [text]))
             ++ [Print (py "Interrupted. Stopping the container...");
                 ContainerStop c]
        /\ appended (trace st')
           = appended (trace st) ++ map splitlines (texts ++ [text])
        /\ (stop_fault env = None -> r = Ok tt /\ exit_status r = 0%Z)).
Proof.
  intros Hrun Hdec Hq. split.
  - intros Hout.
    rewrite (run_forwards env self c st pre texts _ Hrun Hout Hdec Hq).
    rewrite loop_broken, container_stop_run.
    eexists _, _. split; [reflexivity |].
    split; [| split].
    + unfold record_event. cbn [trace]. rewrite trace_forwarded.
      now rewrite <- !app_assoc.
    + unfold record_event. cbn [trace].
      rewrite !appended_app, appended_forwarded. simpl.
      now rewrite !app_nil_r.
    + intros ->. now split.
  - intros data text Hout Hd Hf.
    rewrite (run_fault_at env self c st pre texts data text rest Interrupt)
      by assumption.
    rewrite container_stop_run.
    eexists _, _. split; [reflexivity |].
    split; [| split].
    + unfold record_event. cbn [trace]. rewrite trace_forwarded.
      now rewrite <- !app_assoc.
    + unfold record_event. cbn [trace].
      rewrite !appended_app, appended_forwarded. simpl.
      now rewrite !app_nil_r.
    + intros ->. now split.
Qed.

Lemma interrupt_stops_container_witness :
  exists st',
    run_container_and_log
      (sample_env no_fault
         [Chunk (pyb ("a" ++ LF)); Broken Interrupt; Chunk (pyb ("b" ++ LF))])
      sample_logger initial_state = (Ok tt, st')
    /\ appended (trace st') = [[py "a"]]
    /\ In (ContainerStop sample_container) (trace st').
Proof.
  destruct (interrupt_stops_container
              (sample_env no_fault
                 [Chunk (pyb ("a" ++ LF)); Broken Interrupt;
                  Chunk (pyb ("b" ++ LF))])
              sample_logger sample_container
              [pyb ("a" ++ LF)] [py ("a" ++ LF)]
              [Chunk (pyb ("b" ++ LF))] initial_state)
    as [Hwait _].
  - reflexivity.
  - repeat constructor.
  - intros i _. reflexivity.
  - destruct (Hwait eq_refl) as (r & st' & Hrun & Htrace & Happ & Hok).
    destruct (Hok eq_refl) as [-> _].
    exists st'. split; [exact Hrun |]. split; [exact Happ |].
    rewrite Htrace. apply in_or_app. right. apply in_or_app. right.
    apply in_or_app. right. right. left. reflexivity.
Defined.

(** The claim without the condition on [stop] fails: a second interrupt
    that arrives while [container.stop()] waits for the container leaves the
    [except] clause, and the run ends with [KeyboardInterrupt] and the exit
    status 130 although the notice was printed and [stop] was called. *)
Lemma interrupt_with_failing_stop :
  let env :=
    {| client_fault := None; from_env_fault := None;
       sink_fault := no_fault; run_response := inr sample_container;
       output := [Chunk (pyb ("a" ++ LF)); Broken Interrupt];
       stop_fault := Some Interrupt; clock := fun n => Z.of_nat n |} in
  exists st',
    run_container_and_log env sample_logger initial_state
    = (Raise KeyboardInterrupt, st')
    /\ appended (trace st') = [[py "a"]]
    /\ stopped (trace st') = [sample_container]
    /\ printed (trace st') = [py "Interrupted. Stopping the container..."]
    /\ exit_status
         (fst (run_container_and_log env sample_logger initial_state))
       = 130%Z
    /\ exit_status
         (fst (run_container_and_log env sample_logger initial_state))
       <> 0%Z.
Proof.
  simpl. eexists. split; [vm_compute; reflexivity |].
  repeat split. discriminate.
Qed.

(** ** Creation of the log group and of the log stream *)

(** C2: [create_or_get_log_group] and [create_or_get_log_stream] return
    normally when what they are asked to create exists already, and leave
    the service as it is; called twice with the same names they return
    normally both times. The answer [ResourceAlreadyExistsException] of the
    client is turned into a normal return; any other exception of the client
    goes on to the caller. *)
Theorem creation_is_idempotent env cw :
  (forall g st,
     sink_fault env (sink_calls st) = None -> g ∈ groups st ->
     exists st',
       create_or_get_log_group env cw g st = (Ok tt, st')
       /\ groups st' = groups st /\ streams st' = streams st)
  /\ (forall g s st,
      sink_fault env (sink_calls st) = None ->
      g ∈ groups st -> (g, s) ∈ streams st ->
      exists st',
        create_or_get_log_stream env cw g s st = (Ok tt, st')
        /\ groups st' = groups st /\ streams st' = streams st)
  /\ (forall g st,
      sink_fault env (sink_calls st) = None ->
      sink_fault env (S (sink_calls st)) = None ->
      exists st1 st2,
        create_or_get_log_group env cw g st = (Ok tt, st1)
        /\ create_or_get_log_group env cw g st1 = (Ok tt, st2)
        /\ groups st1 = {[g]} ∪ groups st /\ groups st2 = groups st1)
  /\ (forall g s st,
      sink_fault env (sink_calls st) = None ->
      sink_fault env (S (sink_calls st)) = None ->
      g ∈ groups st ->
      exists st1 st2,
        create_or_get_log_stream env cw g s st = (Ok tt, st1)
        /\ create_or_get_log_stream env cw g s st1 = (Ok tt, st2)
        /\ streams st1 = {[(g, s)]} ∪ streams st /\ streams st2 = streams st1)
  /\ (forall g st st',
      create_log_group env g st = (Raise ResourceAlreadyExistsException, st') ->
      create_or_get_log_group env cw g st = (Ok tt, st'))
  /\ (forall g s st st',
      create_log_stream env g s st
      = (Raise ResourceAlreadyExistsException, st') ->
      create_or_get_log_stream env cw g s st = (Ok tt, st'))
  /\ (forall g st e st',
      create_log_group env g st = (Raise e, st') ->
      e <> ResourceAlreadyExistsException ->
      create_or_get_log_group env cw g st = (Raise e, st'))
  /\ (forall g s st e st',
      create_log_stream env g s st = (Raise e, st') ->
      e <> ResourceAlreadyExistsException ->
      create_or_get_log_stream env cw g s st = (Raise e, st')).
Proof.
  repeat apply conj.
  - intros g st Hq Hg. rewrite create_or_get_log_group_ok by assumption.
    eexists. split; [reflexivity |]. split; [| reflexivity].
    simpl. apply subseteq_union_1_L. now apply singleton_subseteq_l.
  - intros g s st Hq Hg Hs. rewrite create_or_get_log_stream_ok by assumption.
    eexists. split; [reflexivity |]. split; [reflexivity |].
    simpl. apply subseteq_union_1_L. now apply singleton_subseteq_l.
  - intros g st Hq0 Hq1. rewrite create_or_get_log_group_ok by assumption.
    eexists _, _. split; [reflexivity |].
    rewrite create_or_get_log_group_ok by assumption.
    split; [reflexivity |]. split; [reflexivity |].
    simpl. apply subseteq_union_1_L, singleton_subseteq_l.
    apply elem_of_union_l, elem_of_singleton. reflexivity.
  - intros g s st Hq0 Hq1 Hg.
    rewrite create_or_get_log_stream_ok by assumption.
    eexists _, _. split; [reflexivity |].
    rewrite create_or_get_log_stream_ok by assumption.
    split; [reflexivity |]. split; [reflexivity |].
    simpl. apply subseteq_union_1_L, singleton_subseteq_l.
    apply elem_of_union_l, elem_of_singleton. reflexivity.
  - intros g st st' H. unfold create_or_get_log_group, try_except.
    now rewrite H.
  - intros g s st st' H. unfold create_or_get_log_stream, try_except.
    now rewrite H.
  - intros g st e st' H He. unfold create_or_get_log_group, try_except.
    rewrite H. destruct e; try reflexivity. contradiction.
  - intros g s st e st' H He. unfold create_or_get_log_stream, try_except.
    rewrite H. destruct e; try reflexivity. contradiction.
Qed.

Lemma creation_is_idempotent_witness :
  exists st1 st2,
    create_or_get_log_group (sample_env no_fault [])
      (cloudwatch_logger sample_logger) (py "x") initial_state = (Ok tt, st1)
    /\ create_or_get_log_group (sample_env no_fault [])
         (cloudwatch_logger sample_logger) (py "x") st1 = (Ok tt, st2)
    /\ groups st2 = groups st1.
Proof.
  destruct (creation_is_idempotent (sample_env no_fault [])
              (cloudwatch_logger sample_logger))
    as (_ & _ & Htwice & _).
  destruct (Htwice (py "x") initial_state eq_refl eq_refl)
    as (st1 & st2 & H1 & H2 & _ & Hsame).
  exists st1, st2. split; [exact H1 |]. split; [exact H2 | exact Hsame].
Defined.

(** ** The order of the calls *)

(** Every run is of one of four kinds, by the place where it stops: at the
    creation of the log group, at the creation of the log stream, at the
    launch of the container, or in the loop. *)
Lemma run_shape env self st :
  let cw := cloudwatch_logger self in
  let g := aws_cloudwatch_group self in
  let s := aws_cloudwatch_stream self in
  let launch :=
    ContainersRun (docker_image (docker_runner self))
      [py "bash"; py "-c";
       py "python -u -c '" ++ bash_command (docker_runner self) ++ py "'"]
      true true true in
  (exists f st1,
     create_or_get_log_group env cw g st = (Raise (exn_of_fault f), st1)
     /\ run_container_and_log env self st = (Raise (exn_of_fault f), st1)
     /\ trace st1 = trace st ++ [CreateLogGroup g])
  \/ (exists st1 f st2,
       create_or_get_log_group env cw g st = (Ok tt, st1)
       /\ create_or_get_log_stream env cw g s st1
          = (Raise (exn_of_fault f), st2)
       /\ run_container_and_log env self st = (Raise (exn_of_fault f), st2)
       /\ trace st2 = trace st ++ [CreateLogGroup g; CreateLogStream g s])
  \/ (exists st1 st2 f st3,
       create_or_get_log_group env cw g st = (Ok tt, st1)
       /\ create_or_get_log_stream env cw g s st1 = (Ok tt, st2)
       /\ run_container_and_log env self st = (Raise (exn_of_fault f), st3)
       /\ trace st3
          = trace st ++ [CreateLogGroup g; CreateLogStream g s; launch])
  \/ (exists st1 st2 c,
       create_or_get_log_group env cw g st = (Ok tt, st1)
       /\ create_or_get_log_stream env cw g s st1 = (Ok tt, st2)
       /\ run_response env = inr c
       /\ run_container_and_log env self st
          = try_except (for_each (output env) (forward_chunk env self))
              (on_interrupt env c) (started self c st)).
Proof.
  intros cw g s launch.
  destruct (sink_fault env (sink_calls st)) as [f0|] eqn:Hq0.
  { left. exists f0, (called (CreateLogGroup g) st).
    assert (Hg := create_or_get_log_group_fault env cw g st f0 Hq0).
    split; [exact Hg |]. split; [| reflexivity].
    unfold run_container_and_log. unfold bind at 1.
    fold cw g. now rewrite Hg. }
  right.
  assert (Hg := create_or_get_log_group_ok env cw g st Hq0).
  set (st1 := add_group g (called (CreateLogGroup g) st)) in *.
  destruct (sink_fault env (sink_calls st1)) as [f1|] eqn:Hq1.
  { left. exists st1, f1, (called (CreateLogStream g s) st1).
    assert (Hs := create_or_get_log_stream_fault env cw g s st1 f1 Hq1).
    split; [exact Hg |]. split; [exact Hs |]. split.
    - unfold run_container_and_log. unfold bind at 1. fold cw g s.
      rewrite Hg. unfold bind at 1. now rewrite Hs.
    - simpl. now rewrite <- app_assoc. }
  right.
  assert (Hin : g ∈ groups st1)
    by (simpl; apply elem_of_union_l, elem_of_singleton; reflexivity).
  assert (Hs := create_or_get_log_stream_ok env cw g s st1 Hq1 Hin).
  set (st2 := add_stream g s (called (CreateLogStream g s) st1)) in *.
  destruct (run_response env) as [f|c] eqn:Hrun.
  - left. exists st1, st2, f, (record_event launch st2).
    split; [exact Hg |]. split; [exact Hs |]. split.
    + unfold run_container_and_log. unfold bind at 1. fold cw g s.
      rewrite Hg. unfold bind at 1. rewrite Hs. unfold bind at 1.
      unfold run_container, containers_run. now rewrite Hrun.
    + simpl. now rewrite <- !app_assoc.
  - right. exists st1, st2, c.
    split; [exact Hg |]. split; [exact Hs |]. split; [reflexivity |].
    apply run_reaches_loop; assumption.
Qed.

(** C7: in every run the first call creates the log group; the log stream
    is created next, and only when that first call has returned normally;
    the container is started only when both creations have returned
    normally, and its output is requested after that. Every
    [put_log_events] call comes after these four calls: a run that stops
    earlier makes none. *)
Theorem creation_precedes_workload env self st :
  let cw := cloudwatch_logger self in
  let g := aws_cloudwatch_group self in
  let s := aws_cloudwatch_stream self in
  let launch :=
    ContainersRun (docker_image (docker_runner self))
      [py "bash"; py "-c";
       py "python -u -c '" ++ bash_command (docker_runner self) ++ py "'"]
      true true true in
  let final := snd (run_container_and_log env self st) in
  (exists rest, trace final = trace st ++ CreateLogGroup g :: rest)
  /\ (trace final = trace st ++ [CreateLogGroup g]
      \/ (exists st1,
           create_or_get_log_group env cw g st = (Ok tt, st1)
           /\ trace final = trace st ++ [CreateLogGroup g; CreateLogStream g s])
      \/ (exists st1 st2,
           create_or_get_log_group env cw g st = (Ok tt, st1)
           /\ create_or_get_log_stream env cw g s st1 = (Ok tt, st2)
           /\ (trace final
               = trace st ++ [CreateLogGroup g; CreateLogStream g s; launch]
               \/ exists c rest,
                    trace final
                    = trace st
                      ++ [CreateLogGroup g; CreateLogStream g s; launch;
                          ContainerLogs c true true] ++ rest
                    /\ Forall loop_event rest))).
Proof.
  intros cw g s launch final. subst final.
  destruct (run_shape env self st)
    as [(f & st1 & _ & -> & Ht)
       | [(st1 & f & st2 & Hg & _ & -> & Ht)
         | [(st1 & st2 & f & st3 & Hg & Hs & -> & Ht)
           | (st1 & st2 & c & Hg & Hs & _ & ->)]]]; simpl.
  - split; [exists []; exact Ht | left; exact Ht].
  - split; [eexists; exact Ht |]. right. left. exists st1. now split.
  - split; [eexists; exact Ht |]. right. right. exists st1, st2.
    split; [exact Hg |]. split; [exact Hs |]. left. exact Ht.
  - destruct (loop_shape env self c (output env) (started self c st))
      as (r & st' & evs & -> & Ht & Hev & _).
    simpl in Ht |- *. split.
    + eexists. rewrite Ht. unfold preamble. rewrite <- app_assoc. reflexivity.
    + right. right. exists st1, st2.
      split; [exact Hg |]. split; [exact Hs |]. right.
      exists c, evs. split; [| exact Hev].
      rewrite Ht. unfold preamble. now rewrite <- app_assoc.
Qed.

(** ** The container *)

(** C8: [run_container] asks the runtime for a detached container of the
    image, with standard output and standard error captured, whose command
    is [bash -c "python -u -c '<command>'"]: the command string is placed
    between the two quotes as it is, nothing in it is quoted or escaped (a
    quote in the command stays a quote). The call returns the container, or
    raises what the runtime raises. *)
Theorem run_container_command env self st :
  run_container env self st
  = (match run_response env with
     | inl f => Raise (exn_of_fault f)
     | inr c => Ok c
     end,
     record_event
       (ContainersRun (docker_image self)
          [py "bash"; py "-c"; py "python -u -c '" ++ bash_command self ++ py "'"]
          true true true) st)
  /\ (bash_command self = py "print('hi')" ->
      trace (snd (run_container env self st))
      = trace st
        ++ [ContainersRun (docker_image self)
              [py "bash"; py "-c"; py "python -u -c 'print('hi')'"]
              true true true]).
Proof.
  split.
  - unfold run_container, containers_run.
    destruct (run_response env); reflexivity.
  - intros Hc. unfold run_container, containers_run. rewrite Hc.
    destruct (run_response env); reflexivity.
Qed.

Lemma run_container_command_witness :
  trace (snd (run_container (sample_env no_fault [])
                {| docker_image := py "python";
                   bash_command := py "print('hi')" |} initial_state))
  = [ContainersRun (py "python")
       [py "bash"; py "-c"; py "python -u -c 'print('hi')'"] true true true].
Proof.
  exact (proj2 (run_container_command (sample_env no_fault [])
                  {| docker_image := py "python";
                     bash_command := py "print('hi')" |} initial_state)
           eq_refl).
Defined.

(** ** Chunks and lines *)

(** C6: when the text of a chunk does not end in a line boundary (the
    chunk stops in the middle of a line), its last piece, from the last
    boundary on, is the last log event of the call made for the chunk, after
    the lines that precede it. So a line whose first part ends one chunk and
    whose second part starts the next is submitted as two log events, in two
    calls, where the same bytes in one chunk give one log event. *)
Theorem partial_line_is_forwarded env self c st :
  run_response env = inr c ->
  (forall n, sink_fault env n = None) ->
  (forall pre texts data text ch post post_texts,
     output env = map Chunk (pre ++ data :: post) ->
     Forall2 decodes pre texts -> decodes data (text ++ [ch]) ->
     Forall2 decodes post post_texts ->
     is_linebreak ch = false ->
     exists st' head partial,
       run_container_and_log env self st = (Ok tt, st')
       /\ text ++ [ch] = head ++ partial
       /\ ends_line head /\ partial <> [] /\ unbroken partial
       /\ appended (trace st')
          = appended (trace st) ++ map splitlines texts
            ++ (splitlines head ++ [partial]) :: map splitlines post_texts)
  /\ (forall d1 d2 l1 l2,
      output env = [Chunk d1; Chunk d2] ->
      decodes d1 l1 -> decodes d2 (l2 ++ [10]) ->
      l1 <> [] -> l2 <> [] -> unbroken l1 -> unbroken l2 ->
      (exists st',
         run_container_and_log env self st = (Ok tt, st')
         /\ appended (trace st') = appended (trace st) ++ [[l1]; [l2]])
      /\ decodes (d1 ++ d2) (l1 ++ l2 ++ [10])
      /\ splitlines (l1 ++ l2 ++ [10]) = [l1 ++ l2]).
Proof.
  intros Hrun Hq.
  assert (Hall : forall chunks texts,
             output env = map Chunk chunks -> Forall2 decodes chunks texts ->
             exists st',
               run_container_and_log env self st = (Ok tt, st')
               /\ appended (trace st') = appended (trace st) ++ map splitlines texts).
  { intros chunks texts Hout Hdec.
    rewrite <- (app_nil_r (map Chunk chunks)) in Hout.
    rewrite (run_forwards env self c st chunks texts [] Hrun Hout Hdec)
      by (intros; apply Hq).
    rewrite loop_end. eexists. split; [reflexivity |].
    apply appended_forwarded. }
  split.
  - intros pre texts data text ch post post_texts Hout Hpre Hd Hpost Hch.
    destruct (trailing_piece text ch Hch)
      as (head & partial & Heq & Hhead & Hne & Hp).
    destruct (Hall (pre ++ data :: post)
                (texts ++ (text ++ [ch]) :: post_texts) Hout)
      as (st' & Hr & Happ).
    { apply Forall2_app; [assumption |]. constructor; assumption. }
    exists st', head, partial. split; [exact Hr |].
    split; [exact Heq |]. split; [exact Hhead |].
    split; [exact Hne |]. split; [exact Hp |].
    rewrite Happ, map_app. simpl. rewrite Heq.
    now rewrite splitlines_partial by assumption.
  - intros d1 d2 l1 l2 Hout H1 H2 Hn1 Hn2 Hu1 Hu2.
    assert (Hline : forall l, unbroken l -> l <> [] ->
                              splitlines (l ++ [10]) = [l]).
    { intros l Hl _. unfold splitlines.
      now rewrite splitlines_from_line. }
    split; [| split].
    + destruct (Hall [d1; d2] [l1; l2 ++ [10]] Hout) as (st' & Hr & Happ).
      { repeat constructor; assumption. }
      exists st'. split; [exact Hr |]. rewrite Happ. simpl.
      rewrite Hline by assumption.
      unfold splitlines at 1. rewrite splitlines_from_unbroken by assumption.
      simpl. destruct l1; [contradiction | reflexivity].
    + now apply utf8_decode_app.
    + rewrite app_assoc. apply Hline.
      * apply Forall_app. now split.
      * intros Heq. apply app_eq_nil in Heq. now destruct Heq.
Qed.

Lemma partial_line_is_forwarded_witness :
  exists st',
    run_container_and_log
      (sample_env no_fault [Chunk (pyb "hel"); Chunk (pyb ("lo" ++ LF))])
      sample_logger initial_state = (Ok tt, st')
    /\ appended (trace st') = [[py "hel"]; [py "lo"]].
Proof.
  destruct (partial_line_is_forwarded
              (sample_env no_fault [Chunk (pyb "hel"); Chunk (pyb ("lo" ++ LF))])
              sample_logger sample_container initial_state)
    as [_ Hsplit].
  - reflexivity.
  - intros n. reflexivity.
  - destruct (Hsplit (pyb "hel") (pyb ("lo" ++ LF)) (py "hel") (py "lo"))
      as [(st' & Hrun & Happ) _].
    + reflexivity.
    + reflexivity.
    + reflexivity.
    + discriminate.
    + discriminate.
    + repeat constructor.
    + repeat constructor.
    + exists st'. split; [exact Hrun | exact Happ].
Defined.

(** C10: the log events of a chunk are the pieces of its decoded text
    between the line boundaries of [str.splitlines], which are the line
    feed and also VT, FF, CR, FS, GS, RS, NEL, LINE SEPARATOR and PARAGRAPH
    SEPARATOR. No log event contains one of these characters, and a line
    that contains one between two pieces of text is submitted as two log
    events. *)
Theorem lines_split_at_universal_boundaries env self :
  (forall ch,
     is_linebreak ch = true
     <-> In ch [0x0A; 0x0B; 0x0C; 0x0D; 0x1C; 0x1D; 0x1E; 0x85; 0x2028; 0x2029])
  /\ (forall data text st,
      decodes data text ->
      sink_fault env (sink_calls st) = None ->
      (aws_cloudwatch_group self, aws_cloudwatch_stream self) ∈ streams st ->
      exists evs st',
        forward_chunk env self data st = (Ok tt, st')
        /\ trace st'
           = trace st
             ++ [PutLogEvents (aws_cloudwatch_group self)
                   (aws_cloudwatch_stream self) evs]
        /\ map message evs = splitlines text
        /\ Forall unbroken (map message evs))
  /\ (forall b l1 l2,
      is_linebreak b = true -> unbroken l1 -> unbroken l2 -> l2 <> [] ->
      splitlines (l1 ++ b :: l2) = [l1; l2]).
Proof.
  split; [exact is_linebreak_spec |]. split.
  - intros data text st Hd Hq Hs.
    rewrite (forward_chunk_ok env self data text st Hd Hq Hs).
    eexists _, _. split; [reflexivity |]. split; [reflexivity |].
    rewrite stamp_message. split; [reflexivity | apply splitlines_unbroken].
  - intros b l1 l2 Hb H1 H2 Hne.
    rewrite splitlines_cut; [| assumption | now apply crlf_across_unbroken].
    unfold splitlines.
    rewrite splitlines_from_line, splitlines_from_unbroken by assumption.
    simpl. destruct l2; [contradiction | reflexivity].
Qed.

Lemma lines_split_at_universal_boundaries_witness :
  splitlines (py "one" ++ 0x2028 :: py "two") = [py "one"; py "two"]
  /\ splitlines (py "one" ++ 0x0D :: py "two") = [py "one"; py "two"]
  /\ splitlines (py "one" ++ 0x0C :: py "two") = [py "one"; py "two"].
Proof.
  destruct (lines_split_at_universal_boundaries (sample_env no_fault [])
              sample_logger) as (_ & _ & Hsplit).
  split; [| split]; apply Hsplit;
    solve [reflexivity | repeat constructor | discriminate].
Defined.

(** ** Chunks that are not UTF-8 *)

(** C9: a chunk that is not valid UTF-8 on its own makes [decode] raise
    [UnicodeDecodeError], which nothing catches: the run ends with it after
    the calls for the chunks before, the chunk and those after it are not
    submitted, the container is not stopped and the exit status is 1. When
    every chunk delivered is valid UTF-8 no run ends with
    [UnicodeDecodeError], whatever else happens. *)
Theorem undecodable_chunk_aborts env self st :
  (forall c pre texts bad rest,
     run_response env = inr c ->
     output env = map Chunk pre ++ Chunk bad :: rest ->
     Forall2 decodes pre texts -> utf8_decode bad = None ->
     (forall i, (i < 2 + length pre)%nat ->
                sink_fault env (sink_calls st + i) = None) ->
     exists st' evs,
       run_container_and_log env self st = (Raise UnicodeDecodeError, st')
       /\ trace st' = trace st ++ evs
       /\ evs = preamble self c
                ++ appends env (aws_cloudwatch_group self)
                     (aws_cloudwatch_stream self) (ticks st)
                     (map splitlines texts)
       /\ Forall (fun ev => forall c', ev <> ContainerStop c') evs
       /\ appended (trace st') = appended (trace st) ++ map splitlines texts
       /\ exit_status (fst (run_container_and_log env self st)) = 1%Z)
  /\ ((forall data, In (Chunk data) (output env) -> utf8_valid data) ->
      fst (run_container_and_log env self st) <> Raise UnicodeDecodeError)
  /\ (forall data text r st0 st',
      decodes data text ->
      forward_chunk env self data st0 = (r, st') ->
      r <> Raise UnicodeDecodeError).
Proof.
  split; [| split].
  - intros c pre texts bad rest Hrun Hout Hdec Hbad Hq.
    rewrite (run_forwards env self c st pre texts _ Hrun Hout Hdec Hq).
    rewrite loop_undecodable by assumption.
    eexists _, _. split; [reflexivity |].
    split; [apply trace_forwarded |]. split; [reflexivity |].
    split; [| split; [apply appended_forwarded | reflexivity]].
    apply Forall_app. split.
    + repeat constructor; discriminate.
    + generalize (ticks st).
      induction (map splitlines texts) as [|b bs IH]; intros n; simpl;
        constructor; [discriminate | apply IH].
  - intros Hvalid Hr.
    destruct (run_shape env self st)
      as [(f & st1 & _ & Heq & _)
         | [(st1 & f & st2 & _ & _ & Heq & _)
           | [(st1 & st2 & f & st3 & _ & _ & Heq & _)
             | (st1 & st2 & c & _ & _ & _ & Heq)]]];
      rewrite Heq in Hr; simpl in Hr;
      try (injection Hr as Hr; now apply exn_of_fault_neq_decode in Hr).
    destruct (loop_shape env self c (output env) (started self c st))
      as (r & st' & evs & Hl & _ & _ & Hbad).
    rewrite Hl in Hr. simpl in Hr.
    destruct (Hbad Hr) as (data & Hin & Hnone).
    destruct (Hvalid data Hin) as (text & Hsome). congruence.
  - intros data text r st0 st' Hd Hf.
    destruct (forward_chunk_shape env self data st0)
      as (r' & st1 & evs & Heq & _ & _ & Hbad).
    rewrite Heq in Hf. injection Hf as <- _.
    intros Hr. apply Hbad in Hr. unfold decodes in Hd. congruence.
Qed.

Lemma undecodable_chunk_aborts_witness :
  exists st',
    run_container_and_log
      (sample_env no_fault
         [Chunk (pyb ("a" ++ LF)); Chunk [Byte.x62; Byte.xc3];
          Chunk [Byte.xa9; Byte.x0a]])
      sample_logger initial_state = (Raise UnicodeDecodeError, st')
    /\ appended (trace st') = [[py "a"]].
Proof.
  destruct (undecodable_chunk_aborts
              (sample_env no_fault
                 [Chunk (pyb ("a" ++ LF)); Chunk [Byte.x62; Byte.xc3];
                  Chunk [Byte.xa9; Byte.x0a]])
              sample_logger initial_state) as [Habort _].
  destruct (Habort sample_container [pyb ("a" ++ LF)] [py ("a" ++ LF)]
              [Byte.x62; Byte.xc3] [Chunk [Byte.xa9; Byte.x0a]])
    as (st' & evs & Hrun & _ & _ & _ & Happ & _).
  - reflexivity.
  - reflexivity.
  - repeat constructor.
  - reflexivity.
  - intros i _. reflexivity.
  - exists st'. split; [exact Hrun | exact Happ].
Defined.

(** * Further properties *)

(** ** Where a run stops *)

(** The output of the container, read with the faults of the log service in
    view: some chunks that decode and are submitted without fault, then the
    end of the stream, a failure of the stream, a chunk that does not decode,
    or a chunk whose submission meets a fault. [k] is the number of the call
    that submits the first chunk. *)
Lemma output_cases env xs : forall k,
  exists pre texts tail,
    xs = map Chunk pre ++ tail
    /\ Forall2 decodes pre texts
    /\ (forall i, (i < length pre)%nat -> sink_fault env (k + i) = None)
    /\ (tail = []
        \/ (exists f rest, tail = Broken f :: rest)
        \/ (exists data rest,
              tail = Chunk data :: rest /\ utf8_decode data = None)
        \/ (exists data text rest f,
              tail = Chunk data :: rest /\ decodes data text
              /\ sink_fault env (k + length pre) = Some f)).
Proof.
  induction xs as [|[data|f] xs IH]; intros k.
  - exists [], [], []. repeat split; [constructor | intros i Hi; inversion Hi |].
    now left.
  - destruct (utf8_decode data) as [text|] eqn:Hd.
    + destruct (sink_fault env k) as [f|] eqn:Hk.
      * exists [], [], (Chunk data :: xs).
        repeat split; [constructor | intros i Hi; inversion Hi |].
        right. right. right. exists data, text, xs, f.
        simpl. rewrite Nat.add_0_r. now repeat split.
      * destruct (IH (S k)) as (pre & texts & tail & -> & Hdec & Hq & Hend).
        exists (data :: pre), (text :: texts), tail.
        split; [reflexivity |]. split; [now constructor |]. split.
        -- intros [|i] Hi; [now rewrite Nat.add_0_r |].
           rewrite Nat.add_succ_r. apply Hq. simpl in Hi. lia.
        -- simpl length. rewrite Nat.add_succ_r. exact Hend.
    + exists [], [], (Chunk data :: xs).
      repeat split; [constructor | intros i Hi; inversion Hi |].
      right. right. left. now exists data, xs.
  - exists [], [], (Broken f :: xs).
    repeat split; [constructor | intros i Hi; inversion Hi |].
    right. left. now exists f, xs.
Qed.

Section Summary.

Variable env : Env.
Variable self : DockerCloudWatchLogger.

Local Abbreviation g := (aws_cloudwatch_group self).
Local Abbreviation s := (aws_cloudwatch_stream self).
Local Abbreviation launch :=
  (ContainersRun (docker_image (docker_runner self))
     [py "bash"; py "-c";
      py "python -u -c '" ++ bash_command (docker_runner self) ++ py "'"]
     true true true).
Local Abbreviation credentials_message :=
  (Print (py "AWS credentials are invalid.")).
Local Abbreviation interrupt_message :=
  (Print (py "Interrupted. Stopping the container...")).

(** A run that goes into the loop: the chunks forwarded, then the way the
    loop ends. *)
Lemma loop_summary c st :
  exists r st' pre texts rest tail,
    try_except (for_each (output env) (forward_chunk env self))
      (on_interrupt env c) (started self c st) = (r, st')
    /\ output env = map Chunk pre ++ rest
    /\ Forall2 decodes pre texts
    /\ trace st'
       = trace st ++ preamble self c
         ++ appends env g s (ticks st) (map splitlines texts) ++ tail
    /\ groups st' = {[g]} ∪ groups st
    /\ streams st' = {[(g, s)]} ∪ streams st
    /\ ticks st' = (ticks st + length (concat (map splitlines texts)))%nat
    /\ ((tail = []
         /\ ((r = Ok tt /\ rest = [])
             \/ r = Raise UnicodeDecodeError
             \/ exists f, r = Raise (exn_of_fault f) /\ f <> Interrupt))
        \/ (tail = [credentials_message] /\ r = Raise (SystemExit 1))
        \/ (tail = [interrupt_message; ContainerStop c]
            /\ ((r = Ok tt /\ stop_fault env = None)
                \/ exists f, r = Raise (exn_of_fault f)
                             /\ stop_fault env = Some f))).
Proof.
  destruct (output_cases env (output env) (S (S (sink_calls st))))
    as (pre & texts & tail0 & Hout & Hdec & Hq & Hend).
  assert (Hloop :
    try_except (for_each (output env) (forward_chunk env self))
      (on_interrupt env c) (started self c st)
    = try_except (for_each tail0 (forward_chunk env self)) (on_interrupt env c)
        (forwarded env g s (map splitlines texts) (started self c st))).
  { rewrite Hout. unfold try_except.
    rewrite (forward_chunks env self pre texts Hdec);
      [reflexivity | exact Hq | apply started_stream]. }
  assert (Hstop : forall st0,
    exists r st',
      container_stop env c (record_event interrupt_message st0) = (r, st')
      /\ trace st' = trace st0 ++ [interrupt_message; ContainerStop c]
      /\ groups st' = groups st0 /\ streams st' = streams st0
      /\ ticks st' = ticks st0
      /\ ((r = Ok tt /\ stop_fault env = None)
          \/ exists f, r = Raise (exn_of_fault f) /\ stop_fault env = Some f)).
  { intros st0. unfold container_stop.
    destruct (stop_fault env) as [f|]; eexists _, _;
      (split; [reflexivity |]); simpl; rewrite <- app_assoc;
      repeat split; [right; now exists f | now left]. }
  rewrite Hloop.
  destruct Hend as [-> | [(f & rest & ->) | [(data & rest & -> & Hbad)
                   | (data & text & rest & f & -> & Hd & Hf)]]].
  - (* the stream ends *)
    rewrite loop_end. rewrite app_nil_r in Hout.
    eexists _, _, pre, texts, [], [].
    split; [reflexivity |]. split; [now rewrite app_nil_r |].
    split; [exact Hdec |]. rewrite app_nil_r.
    split; [apply trace_forwarded |]. repeat split. left. split; [reflexivity |].
    left. now split.
  - (* the stream fails *)
    rewrite loop_broken. destruct f.
    1-3: eexists _, _, pre, texts, _, [];
      (split; [reflexivity |]); (split; [exact Hout |]);
      (split; [exact Hdec |]); rewrite app_nil_r;
      (split; [apply trace_forwarded |]); repeat split;
      left; (split; [reflexivity |]); right; right;
      eexists; (split; [reflexivity | discriminate]).
    destruct (Hstop (forwarded env g s (map splitlines texts)
                       (started self c st)))
      as (r & st' & Heq & Ht & Hg & Hs & Hk & Hr).
    rewrite Heq.
    exists r, st', pre, texts, (Broken Interrupt :: rest),
      [interrupt_message; ContainerStop c].
    split; [reflexivity |]. split; [exact Hout |]. split; [exact Hdec |].
    split; [rewrite Ht, trace_forwarded; now rewrite <- !app_assoc |].
    split; [exact Hg |]. split; [exact Hs |]. split; [exact Hk |].
    right. right. now split.
  - (* a chunk does not decode *)
    rewrite loop_undecodable by assumption.
    eexists _, _, pre, texts, _, [].
    split; [reflexivity |]. split; [exact Hout |]. split; [exact Hdec |].
    rewrite app_nil_r. split; [apply trace_forwarded |]. repeat split.
    left. split; [reflexivity |]. right. now left.
  - (* a submission meets a fault *)
    assert (Hf' : sink_fault env
                    (sink_calls (forwarded env g s (map splitlines texts)
                                   (started self c st))) = Some f).
    { simpl. rewrite length_map, <- (Forall2_length _ _ _ Hdec). exact Hf. }
    rewrite (loop_fault env self c data text rest f _ Hd Hf').
    rewrite forwarded_snoc.
    replace (map splitlines texts ++ [splitlines text])
      with (map splitlines (texts ++ [text])) by apply map_app.
    assert (Hout' : output env = map Chunk (pre ++ [data]) ++ rest).
    { rewrite Hout, map_app, <- app_assoc. reflexivity. }
    assert (Hdec' : Forall2 decodes (pre ++ [data]) (texts ++ [text])).
    { apply Forall2_app; [exact Hdec | now repeat constructor]. }
    destruct f.
    + eexists _, _, (pre ++ [data]), (texts ++ [text]), rest,
        [credentials_message].
      split; [reflexivity |]. split; [exact Hout' |]. split; [exact Hdec' |].
      split; [unfold record_event; cbn [trace]; rewrite trace_forwarded;
              now rewrite <- !app_assoc |].
      repeat split. right. left. now split.
    + eexists _, _, (pre ++ [data]), (texts ++ [text]), rest, [].
      split; [reflexivity |]. split; [exact Hout' |]. split; [exact Hdec' |].
      rewrite app_nil_r. split; [apply trace_forwarded |]. repeat split.
      left. split; [reflexivity |]. right. right.
      eexists. split; [reflexivity | discriminate].
    + eexists _, _, (pre ++ [data]), (texts ++ [text]), rest, [].
      split; [reflexivity |]. split; [exact Hout' |]. split; [exact Hdec' |].
      rewrite app_nil_r. split; [apply trace_forwarded |]. repeat split.
      left. split; [reflexivity |]. right. right.
      eexists. split; [reflexivity | discriminate].
    + destruct (Hstop (forwarded env g s (map splitlines (texts ++ [text]))
                         (started self c st)))
        as (r & st' & Heq & Ht & Hg & Hs & Hk & Hr).
      rewrite Heq.
      exists r, st', (pre ++ [data]), (texts ++ [text]), rest,
        [interrupt_message; ContainerStop c].
      split; [reflexivity |]. split; [exact Hout' |]. split; [exact Hdec' |].
      split; [rewrite Ht, trace_forwarded; now rewrite <- !app_assoc |].
      split; [exact Hg |]. split; [exact Hs |]. split; [exact Hk |].
      right. right. now split.
Qed.

(** Every run: where it stops, what it has done by then and how it ends. *)
Lemma run_summary st :
  exists r st' evs,
    run_container_and_log env self st = (r, st')
    /\ trace st' = trace st ++ evs
    /\ ((exists f,
           sink_fault env (sink_calls st) = Some f
           /\ r = Raise (exn_of_fault f) /\ evs = [CreateLogGroup g]
           /\ groups st' = groups st /\ streams st' = streams st
           /\ ticks st' = ticks st)
        \/ (exists f,
              sink_fault env (sink_calls st) = None
              /\ sink_fault env (S (sink_calls st)) = Some f
              /\ r = Raise (exn_of_fault f)
              /\ evs = [CreateLogGroup g; CreateLogStream g s]
              /\ groups st' = {[g]} ∪ groups st /\ streams st' = streams st
              /\ ticks st' = ticks st)
        \/ (exists f,
              sink_fault env (sink_calls st) = None
              /\ sink_fault env (S (sink_calls st)) = None
              /\ run_response env = inl f
              /\ r = Raise (exn_of_fault f)
              /\ evs = [CreateLogGroup g; CreateLogStream g s; launch]
              /\ groups st' = {[g]} ∪ groups st
              /\ streams st' = {[(g, s)]} ∪ streams st
              /\ ticks st' = ticks st)
        \/ (exists c pre texts rest tail,
              sink_fault env (sink_calls st) = None
              /\ sink_fault env (S (sink_calls st)) = None
              /\ run_response env = inr c
              /\ output env = map Chunk pre ++ rest
              /\ Forall2 decodes pre texts
              /\ evs = preamble self c
                       ++ appends env g s (ticks st) (map splitlines texts)
                       ++ tail
              /\ groups st' = {[g]} ∪ groups st
              /\ streams st' = {[(g, s)]} ∪ streams st
              /\ ticks st'
                 = (ticks st + length (concat (map splitlines texts)))%nat
              /\ ((tail = []
                   /\ ((r = Ok tt /\ rest = [])
                       \/ r = Raise UnicodeDecodeError
                       \/ exists f, r = Raise (exn_of_fault f)
                                    /\ f <> Interrupt))
                  \/ (tail = [credentials_message]
                      /\ r = Raise (SystemExit 1))
                  \/ (tail = [interrupt_message; ContainerStop c]
                      /\ ((r = Ok tt /\ stop_fault env = None)
                          \/ exists f, r = Raise (exn_of_fault f)
                                       /\ stop_fault env = Some f))))).
Proof.
  destruct (sink_fault env (sink_calls st)) as [f0|] eqn:Hq0.
  { exists (Raise (exn_of_fault f0)), (called (CreateLogGroup g) st),
      [CreateLogGroup g].
    split; [| split; [reflexivity |]].
    - unfold run_container_and_log. unfold bind at 1.
      now rewrite create_or_get_log_group_fault with (f := f0).
    - left. exists f0. now repeat split. }
  destruct (sink_fault env (S (sink_calls st))) as [f1|] eqn:Hq1.
  { exists (Raise (exn_of_fault f1)),
      (called (CreateLogStream g s)
         (add_group g (called (CreateLogGroup g) st))),
      [CreateLogGroup g; CreateLogStream g s].
    split; [| split; [simpl; now rewrite <- app_assoc |]].
    - unfold run_container_and_log. unfold bind at 1.
      rewrite create_or_get_log_group_ok by assumption.
      unfold bind at 1.
      now rewrite create_or_get_log_stream_fault with (f := f1).
    - right. left. exists f1. now repeat split. }
  destruct (run_response env) as [f|c] eqn:Hrun.
  { exists (Raise (exn_of_fault f)),
      (record_event launch
         (add_stream g s
            (called (CreateLogStream g s)
               (add_group g (called (CreateLogGroup g) st))))),
      [CreateLogGroup g; CreateLogStream g s; launch].
    split; [| split; [simpl; now rewrite <- !app_assoc |]].
    - unfold run_container_and_log. unfold bind at 1.
      rewrite create_or_get_log_group_ok by assumption.
      unfold bind at 1.
      rewrite create_or_get_log_stream_ok;
        [| assumption
         | simpl; apply elem_of_union_l, elem_of_singleton; reflexivity].
      unfold bind at 1. unfold run_container, containers_run.
      now rewrite Hrun.
    - right. right. left. exists f. now repeat split. }
  rewrite (run_reaches_loop env self c st Hq0 Hq1 Hrun).
  destruct (loop_summary c st)
    as (r & st' & pre & texts & rest & tail & Heq & Hout & Hdec & Ht & Hg & Hs
        & Hk & Hend).
  exists r, st', (preamble self c
                  ++ appends env g s (ticks st) (map splitlines texts) ++ tail).
  split; [exact Heq |]. split; [exact Ht |].
  right. right. right. exists c, pre, texts, rest, tail. now repeat split.
Qed.

End Summary.

(** ** Readings of the trace of a run *)

Lemma timestamps_app t1 t2 : timestamps (t1 ++ t2) = timestamps t1 ++ timestamps t2.
Proof. unfold timestamps. now rewrite omap_app, concat_app. Qed.

Lemma stamp_timestamp env lines : forall n,
  map timestamp (stamp env n lines) = map (clock env) (seq n (length lines)).
Proof.
  induction lines as [|l ls IH]; intros n; [reflexivity |].
  simpl. now rewrite IH.
Qed.

Lemma timestamps_appends env g s batches : forall n,
  timestamps (appends env g s n batches)
  = map (clock env) (seq n (length (concat batches))).
Proof.
  induction batches as [|b bs IH]; intros n; [reflexivity |].
  simpl. unfold timestamps in *. simpl. rewrite IH, stamp_timestamp.
  rewrite length_app, seq_app, map_app. reflexivity.
Qed.

Lemma stopped_app t1 t2 : stopped (t1 ++ t2) = stopped t1 ++ stopped t2.
Proof. apply omap_app. Qed.

Lemma printed_app t1 t2 : printed (t1 ++ t2) = printed t1 ++ printed t2.
Proof. apply omap_app. Qed.

Lemma targets_app t1 t2 : targets (t1 ++ t2) = targets t1 ++ targets t2.
Proof. apply omap_app. Qed.

Lemma stopped_last t text c : stopped (t ++ [Print text; ContainerStop c]) <> [].
Proof.
  rewrite stopped_app. simpl. intros H.
  apply app_eq_nil in H. destruct H as [_ H]. discriminate.
Qed.

Lemma stopped_appends env g s batches : forall n,
  stopped (appends env g s n batches) = [].
Proof. induction batches as [|b bs IH]; intros n; [reflexivity | apply IH]. Qed.

Lemma printed_appends env g s batches : forall n,
  printed (appends env g s n batches) = [].
Proof. induction batches as [|b bs IH]; intros n; [reflexivity | apply IH]. Qed.

Lemma targets_appends env g s batches : forall n,
  Forall (fun t => t = (g, s)) (targets (appends env g s n batches)).
Proof.
  induction batches as [|b bs IH]; intros n; [constructor |].
  simpl. constructor; [reflexivity | apply IH].
Qed.

Lemma clock_reading env k : forall n i t,
  nth_error (map (clock env) (seq n k)) i = Some t -> t = clock env (n + i).
Proof.
  induction k as [|k IH]; intros n i t H.
  - destruct i; discriminate.
  - destruct i as [|i]; simpl in H.
    + injection H as <-. now rewrite Nat.add_0_r.
    + rewrite Nat.add_succ_r. now apply (IH (S n)).
Qed.

Ltac run_cases env self st :=
  let r := fresh "r" in
  let st' := fresh "st'" in
  let evs := fresh "evs" in
  let Hrun := fresh "Hrun" in
  let Htrace := fresh "Htrace" in
  destruct (run_summary env self st)
    as (r & st' & evs & Hrun & Htrace
        & [(f & Hq0 & -> & -> & Hg & Hs & Hk)
          | [(f & Hq0 & Hq1 & -> & -> & Hg & Hs & Hk)
            | [(f & Hq0 & Hq1 & Hresp & -> & -> & Hg & Hs & Hk)
              | (c & pre & texts & rest & tail & Hq0 & Hq1 & Hresp & Hout
                 & Hdec & -> & Hg & Hs & Hk & Hend)]]]);
  rewrite Hrun; cbn [fst snd].

(** ** Timestamps *)

(** X1: the clock is read once for every line submitted and for nothing
    else, and the readings are attached to the lines in the order of
    submission: the timestamps of a run, within a call and from one call to
    the next, are consecutive readings of the clock. With a clock that does
    not go back they never decrease. *)
Theorem timestamps_follow_clock env self st :
  exists evs,
    trace (snd (run_container_and_log env self st)) = trace st ++ evs
    /\ timestamps evs
       = map (clock env) (seq (ticks st) (length (concat (appended evs))))
    /\ ticks (snd (run_container_and_log env self st))
       = (ticks st + length (concat (appended evs)))%nat
    /\ ((forall a b, (a <= b)%nat -> (clock env a <= clock env b)%Z) ->
        forall i j ti tj,
          (i <= j)%nat ->
          nth_error (timestamps evs) i = Some ti ->
          nth_error (timestamps evs) j = Some tj ->
          (ti <= tj)%Z).
Proof.
  assert (Hsorted : forall n k,
    (forall a b, (a <= b)%nat -> (clock env a <= clock env b)%Z) ->
    forall i j ti tj,
      (i <= j)%nat ->
      nth_error (map (clock env) (seq n k)) i = Some ti ->
      nth_error (map (clock env) (seq n k)) j = Some tj ->
      (ti <= tj)%Z).
  { intros n k Hmono i j ti tj Hij Hi Hj.
    apply clock_reading in Hi. apply clock_reading in Hj. subst.
    apply Hmono. lia. }
  run_cases env self st.
  1-3: eexists; (split; [exact Htrace |]); simpl;
    (split; [reflexivity |]); (split; [lia |]);
    intros _ [|i] j ti tj _ Hi; discriminate.
  exists (preamble self c
          ++ appends env (aws_cloudwatch_group self)
               (aws_cloudwatch_stream self) (ticks st) (map splitlines texts)
          ++ tail).
  split; [exact Htrace |].
  assert (Hts : timestamps tail = [] /\ appended tail = []).
  { destruct Hend as [(-> & _) | [(-> & _) | (-> & _)]]; now split. }
  destruct Hts as [Hts Hap].
  assert (Happ : appended
            (preamble self c
             ++ appends env (aws_cloudwatch_group self)
                  (aws_cloudwatch_stream self) (ticks st)
                  (map splitlines texts) ++ tail)
          = map splitlines texts).
  { rewrite !appended_app, appended_preamble, appended_appends, Hap.
    apply app_nil_r. }
  assert (Htime : timestamps
            (preamble self c
             ++ appends env (aws_cloudwatch_group self)
                  (aws_cloudwatch_stream self) (ticks st)
                  (map splitlines texts) ++ tail)
          = map (clock env)
              (seq (ticks st) (length (concat (map splitlines texts))))).
  { rewrite !timestamps_app, timestamps_appends, Hts.
    simpl. apply app_nil_r. }
  rewrite Happ, Htime. split; [reflexivity |]. split; [exact Hk |].
  intros Hmono. now apply Hsorted.
Qed.

Lemma timestamps_follow_clock_witness :
  exists evs,
    trace (snd (run_container_and_log
                  (sample_env no_fault
                     [Chunk (pyb ("a" ++ LF ++ "b" ++ LF));
                      Chunk (pyb ("c" ++ LF))])
                  sample_logger initial_state)) = evs
    /\ timestamps evs = [0; 1; 2]%Z
    /\ forall i j ti tj,
         (i <= j)%nat ->
         nth_error (timestamps evs) i = Some ti ->
         nth_error (timestamps evs) j = Some tj -> (ti <= tj)%Z.
Proof.
  destruct (timestamps_follow_clock
              (sample_env no_fault
                 [Chunk (pyb ("a" ++ LF ++ "b" ++ LF)); Chunk (pyb ("c" ++ LF))])
              sample_logger initial_state)
    as (evs & Htrace & Htime & _ & Hsorted).
  exists evs. split; [exact Htrace |]. split.
  - rewrite Htime. simpl in Htrace. rewrite <- Htrace. reflexivity.
  - apply Hsorted. intros a b Hab. simpl. lia.
Defined.

(** ** What a run never does *)

(** X2: [container.stop()] is called at most once in a run, on the
    container that was started, as the very last call and right after the
    notice of the interrupt. A run that ends with [UnicodeDecodeError] or
    with [exit(1)] does not stop the container, and when stopping cannot
    fail, no run that ends with an exception does. *)
Theorem stop_only_after_interrupt env self st :
  exists evs,
    trace (snd (run_container_and_log env self st)) = trace st ++ evs
    /\ (stopped evs = []
        \/ exists c evs0,
             run_response env = inr c
             /\ evs = evs0
                      ++ [Print (py "Interrupted. Stopping the container...");
                          ContainerStop c]
             /\ stopped evs0 = [])
    /\ (fst (run_container_and_log env self st) = Raise UnicodeDecodeError
        \/ fst (run_container_and_log env self st) = Raise (SystemExit 1) ->
        stopped evs = [])
    /\ (stop_fault env = None ->
        fst (run_container_and_log env self st) <> Ok tt ->
        stopped evs = []).
Proof.
  run_cases env self st.
  1-3: eexists; (split; [exact Htrace |]); split; [now left |];
    split; reflexivity.
  eexists. split; [exact Htrace |].
  assert (Hpre : stopped
            (preamble self c
             ++ appends env (aws_cloudwatch_group self)
                  (aws_cloudwatch_stream self) (ticks st)
                  (map splitlines texts)) = []).
  { rewrite stopped_app, stopped_appends. reflexivity. }
  rewrite app_assoc.
  destruct Hend as [(-> & Hr) | [(-> & Hr) | (-> & Hr)]].
  - rewrite app_nil_r. split; [now left |]. split; intros; exact Hpre.
  - rewrite stopped_app, Hpre. split; [now left |]. split; reflexivity.
  - split; [| split].
    + right. eexists c, _. split; [exact Hresp |]. split; [reflexivity |].
      exact Hpre.
    + intros [Hu | Hx].
      * destruct Hr as [(-> & _) | (f & -> & _)]; [discriminate |].
        injection Hu as Hu. now apply exn_of_fault_neq_decode in Hu.
      * destruct Hr as [(-> & _) | (f & -> & _)]; [discriminate |].
        destruct f; discriminate.
    + intros Hstop Hne.
      destruct Hr as [(-> & _) | (f & _ & Hf)]; [contradiction | congruence].
Qed.

Lemma stop_only_after_interrupt_witness :
  stopped
    (trace (snd (run_container_and_log
                   (sample_env (fault_at 2 ServiceFailure)
                      [Chunk (pyb ("a" ++ LF)); Chunk (pyb ("b" ++ LF))])
                   sample_logger initial_state))) = [].
Proof.
  destruct (stop_only_after_interrupt
              (sample_env (fault_at 2 ServiceFailure)
                 [Chunk (pyb ("a" ++ LF)); Chunk (pyb ("b" ++ LF))])
              sample_logger initial_state)
    as (evs & Htrace & _ & _ & Hnone).
  rewrite Htrace. apply Hnone; [reflexivity | discriminate].
Defined.

(** X3: at most one text is printed in a run, and it is one of the two
    fixed messages: the message about the credentials, printed when the run
    ends with [exit(1)], or the notice of the interrupt. No part of the
    output of the container and no credential is ever printed. *)
Theorem only_fixed_messages_printed env self st :
  exists evs,
    trace (snd (run_container_and_log env self st)) = trace st ++ evs
    /\ (printed evs = []
        \/ (printed evs = [py "AWS credentials are invalid."]
            /\ fst (run_container_and_log env self st) = Raise (SystemExit 1))
        \/ (printed evs = [py "Interrupted. Stopping the container..."]
            /\ stopped evs <> []))
    /\ (fst (run_container_and_log env self st) = Raise (SystemExit 1) ->
        printed evs = [py "AWS credentials are invalid."]).
Proof.
  run_cases env self st.
  1-3: eexists; (split; [exact Htrace |]); split; [now left |];
    intros H; destruct f; discriminate.
  eexists. split; [exact Htrace |].
  assert (Hpre : forall tail0,
            printed
              (preamble self c
               ++ appends env (aws_cloudwatch_group self)
                    (aws_cloudwatch_stream self) (ticks st)
                    (map splitlines texts) ++ tail0) = printed tail0).
  { intros tail0. rewrite !printed_app, printed_appends. reflexivity. }
  rewrite Hpre.
  destruct Hend as [(-> & Hr) | [(-> & Hr) | (-> & Hr)]].
  - split; [now left |]. intros Hx.
    destruct Hr as [(-> & _) | [-> | (f & -> & _)]]; try discriminate.
    destruct f; discriminate.
  - split; [right; left; now split | reflexivity].
  - split.
    + right. right. split; [reflexivity |].
      rewrite app_assoc. apply stopped_last.
    + intros Hx. destruct Hr as [(-> & _) | (f & -> & _)]; [discriminate |].
      destruct f; discriminate.
Qed.

(** X4: in every run, failing or not, every submission goes to the log
    group and log stream of the logger, and the batches submitted are the
    lines of the first chunks of the output, chunk by chunk and in order:
    nothing is submitted twice, out of order or to another stream. *)
Theorem submissions_follow_output env self st :
  exists evs pre texts rest,
    trace (snd (run_container_and_log env self st)) = trace st ++ evs
    /\ output env = map Chunk pre ++ rest
    /\ Forall2 decodes pre texts
    /\ appended evs = map splitlines texts
    /\ Forall (fun t => t = (aws_cloudwatch_group self,
                             aws_cloudwatch_stream self)) (targets evs)
    /\ (fst (run_container_and_log env self st) = Ok tt ->
        stopped evs = [] -> rest = []).
Proof.
  run_cases env self st.
  1-3: eexists _, [], [], (output env); (split; [exact Htrace |]);
    (split; [reflexivity |]); (split; [constructor |]);
    (split; [reflexivity |]); (split; [constructor |]);
    intros H; destruct f; discriminate.
  eexists _, pre, texts, rest. split; [exact Htrace |].
  split; [exact Hout |]. split; [exact Hdec |].
  assert (Htail : appended tail = [] /\ targets tail = []).
  { destruct Hend as [(-> & _) | [(-> & _) | (-> & _)]]; now split. }
  destruct Htail as [Hap Htg].
  split; [| split].
  - rewrite !appended_app, appended_preamble, appended_appends, Hap.
    apply app_nil_r.
  - rewrite !targets_app, Htg, app_nil_r. simpl. apply targets_appends.
  - intros Hok Hnostop.
    destruct Hend as [(-> & Hr) | [(-> & Hr) | (-> & Hr)]].
    + destruct Hr as [(_ & ->) | [Hr | (f & Hr & _)]];
        [reflexivity | congruence | congruence].
    + congruence.
    + rewrite app_assoc in Hnostop. now apply stopped_last in Hnostop.
Qed.

(** X5: a run returns normally or ends with [UnicodeDecodeError], with
    [SystemExit(1)], or with an exception raised by the log service, the
    container runtime or an interrupt. It never ends with
    [ResourceAlreadyExistsException] or [ResourceNotFoundException], and
    the exit status is 0 exactly when the run returns normally. *)
Theorem run_outcomes env self st :
  let r := fst (run_container_and_log env self st) in
  (r = Ok tt \/ r = Raise UnicodeDecodeError \/ r = Raise (SystemExit 1)
   \/ exists f, r = Raise (exn_of_fault f))
  /\ r <> Raise ResourceAlreadyExistsException
  /\ r <> Raise ResourceNotFoundException
  /\ (exit_status r = 0%Z <-> r = Ok tt).
Proof.
  assert (Hclass : forall r : result unit,
    (r = Ok tt \/ r = Raise UnicodeDecodeError \/ r = Raise (SystemExit 1)
     \/ exists f, r = Raise (exn_of_fault f)) ->
    (r = Ok tt \/ r = Raise UnicodeDecodeError \/ r = Raise (SystemExit 1)
     \/ exists f, r = Raise (exn_of_fault f))
    /\ r <> Raise ResourceAlreadyExistsException
    /\ r <> Raise ResourceNotFoundException
    /\ (exit_status r = 0%Z <-> r = Ok tt)).
  { intros r H. split; [exact H |].
    destruct H as [-> | [-> | [-> | (f & ->)]]];
      repeat split; try discriminate; try (destruct f; discriminate);
      try reflexivity. }
  simpl. apply Hclass.
  run_cases env self st.
  1-3: right; right; right; now exists f.
  destruct Hend as [(_ & [(-> & _) | [-> | (f & -> & _)]])
                   | [(_ & ->) | (_ & [(-> & _) | (f & -> & _)])]].
  - now left.
  - right. now left.
  - right. right. right. now exists f.
  - right. right. now left.
  - now left.
  - right. right. right. now exists f.
Qed.

Lemma only_fixed_messages_printed_witness :
  printed
    (trace (snd (run_container_and_log
                   (sample_env (fault_at 2 NoCredentials)
                      [Chunk (pyb ("a" ++ LF))])
                   sample_logger initial_state)))
  = [py "AWS credentials are invalid."].
Proof.
  destruct (only_fixed_messages_printed
              (sample_env (fault_at 2 NoCredentials) [Chunk (pyb ("a" ++ LF))])
              sample_logger initial_state)
    as (evs & Htrace & _ & Hexit).
  rewrite Htrace. apply Hexit. reflexivity.
Defined.

Lemma submissions_follow_output_witness :
  exists pre rest,
    [Chunk (pyb ("a" ++ LF)); Chunk (pyb ("b" ++ LF))] = map Chunk pre ++ rest
    /\ rest = [].
Proof.
  destruct (submissions_follow_output
              (sample_env no_fault
                 [Chunk (pyb ("a" ++ LF)); Chunk (pyb ("b" ++ LF))])
              sample_logger initial_state)
    as (evs & pre & texts & rest & Htrace & Hout & _ & _ & _ & Hall).
  exists pre, rest. split; [exact Hout |].
  apply Hall; [reflexivity |].
  simpl in Htrace. apply app_inv_head with (l := []).
  simpl. rewrite <- Htrace. reflexivity.
Defined.

(** ** Failures before the loop *)

(** X6: when the creation of the log group, or after it the creation of
    the log stream, fails with anything but "already exists" (an interrupt
    included), the run ends with that exception at once: a failed creation
    of the group is the only call of the run, a failed creation of the
    stream the second and last, after the group has been created. The
    container is not started and nothing is printed. *)
Theorem creation_failure_aborts env self st f :
  (sink_fault env (sink_calls st) = Some f ->
   exists st',
     run_container_and_log env self st = (Raise (exn_of_fault f), st')
     /\ trace st' = trace st ++ [CreateLogGroup (aws_cloudwatch_group self)]
     /\ groups st' = groups st /\ streams st' = streams st)
  /\ (sink_fault env (sink_calls st) = None ->
      sink_fault env (S (sink_calls st)) = Some f ->
      exists st',
        run_container_and_log env self st = (Raise (exn_of_fault f), st')
        /\ trace st'
           = trace st
             ++ [CreateLogGroup (aws_cloudwatch_group self);
                 CreateLogStream (aws_cloudwatch_group self)
                   (aws_cloudwatch_stream self)]
        /\ groups st' = {[aws_cloudwatch_group self]} ∪ groups st
        /\ streams st' = streams st).
Proof.
  rename f into f'. split.
  - intros Hq0'. run_cases env self st; try congruence.
    assert (f = f') as -> by congruence.
    exists st'. now repeat split.
  - intros Hq0' Hq1'. run_cases env self st; try congruence.
    assert (f = f') as -> by congruence.
    exists st'. now repeat split.
Qed.

Lemma creation_failure_aborts_witness :
  exists st',
    run_container_and_log
      (sample_env (fault_at 1 Interrupt) [Chunk (pyb ("a" ++ LF))])
      sample_logger initial_state = (Raise KeyboardInterrupt, st')
    /\ trace st'
       = [CreateLogGroup (py "group"); CreateLogStream (py "group") (py "stream")].
Proof.
  destruct (creation_failure_aborts
              (sample_env (fault_at 1 Interrupt) [Chunk (pyb ("a" ++ LF))])
              sample_logger initial_state Interrupt) as [_ Hstream].
  destruct (Hstream eq_refl eq_refl) as (st' & Hrun & Htrace & _).
  exists st'. split; [exact Hrun | exact Htrace].
Defined.

(** X7: when the container cannot be started, the run ends with the
    exception of the runtime (an interrupt included) after the two
    creations, which stay in effect: the log group and the log stream exist,
    the output of the container is never requested, nothing is submitted or
    printed, and the exit status is not 0. *)
Theorem launch_failure_aborts env self st f :
  sink_fault env (sink_calls st) = None ->
  sink_fault env (S (sink_calls st)) = None ->
  run_response env = inl f ->
  exists st',
    run_container_and_log env self st = (Raise (exn_of_fault f), st')
    /\ trace st'
       = trace st
         ++ [CreateLogGroup (aws_cloudwatch_group self);
             CreateLogStream (aws_cloudwatch_group self)
               (aws_cloudwatch_stream self);
             ContainersRun (docker_image (docker_runner self))
               [py "bash"; py "-c";
                py "python -u -c '" ++ bash_command (docker_runner self)
                ++ py "'"] true true true]
    /\ aws_cloudwatch_group self ∈ groups st'
    /\ (aws_cloudwatch_group self, aws_cloudwatch_stream self) ∈ streams st'
    /\ exit_status (Raise (exn_of_fault f)) <> 0%Z.
Proof.
  rename f into f'.
  intros Hq0' Hq1' Hresp'. run_cases env self st; try congruence.
  assert (f = f') as -> by congruence.
  exists st'. split; [reflexivity |]. split; [exact Htrace |].
  split; [rewrite Hg; apply elem_of_union_l, elem_of_singleton; reflexivity |].
  split; [rewrite Hs; apply elem_of_union_l, elem_of_singleton; reflexivity |].
  destruct f'; discriminate.
Qed.

Lemma launch_failure_aborts_witness :
  exists st',
    run_container_and_log
      {| client_fault := None; from_env_fault := None;
         sink_fault := no_fault; run_response := inl RuntimeFailure;
         output := []; stop_fault := None; clock := fun n => Z.of_nat n |}
      sample_logger initial_state = (Raise DockerException, st')
    /\ py "group" ∈ groups st'.
Proof.
  destruct (launch_failure_aborts
              {| client_fault := None; from_env_fault := None;
                 sink_fault := no_fault; run_response := inl RuntimeFailure;
                 output := []; stop_fault := None;
                 clock := fun n => Z.of_nat n |}
              sample_logger initial_state RuntimeFailure)
    as (st' & Hrun & _ & Hg & _).
  - reflexivity.
  - reflexivity.
  - reflexivity.
  - exists st'. split; [exact Hrun | exact Hg].
Defined.

(** ** Failures in the loop that are not failures of a submission *)

(** X8: when reading the output of the container raises anything but
    [KeyboardInterrupt], the run ends with that exception after the calls
    for the chunks read so far: nothing is printed and the container is not
    stopped. This holds for [NoCredentialsError] too: the message about the
    credentials and [exit(1)] belong to the submission only. *)
Theorem stream_failure_propagates env self c pre texts f rest st :
  run_response env = inr c ->
  output env = map Chunk pre ++ Broken f :: rest ->
  Forall2 decodes pre texts ->
  (forall i, (i < 2 + length pre)%nat ->
             sink_fault env (sink_calls st + i) = None) ->
  f <> Interrupt ->
  exists st',
    run_container_and_log env self st = (Raise (exn_of_fault f), st')
    /\ trace st'
       = trace st ++ preamble self c
         ++ appends env (aws_cloudwatch_group self) (aws_cloudwatch_stream self)
              (ticks st) (map splitlines texts)
    /\ printed (trace st') = printed (trace st)
    /\ stopped (trace st') = stopped (trace st)
    /\ appended (trace st') = appended (trace st) ++ map splitlines texts.
Proof.
  intros Hrun Hout Hdec Hq Hf.
  rewrite (run_forwards env self c st pre texts _ Hrun Hout Hdec Hq).
  rewrite loop_broken.
  assert (Hend :
    (Raise (exn_of_fault f) : result unit,
     forwarded env (aws_cloudwatch_group self) (aws_cloudwatch_stream self)
       (map splitlines texts) (started self c st))
    = match f with
      | Interrupt =>
        container_stop env c
          (record_event (Print (py "Interrupted. Stopping the container..."))
             (forwarded env (aws_cloudwatch_group self)
                (aws_cloudwatch_stream self) (map splitlines texts)
                (started self c st)))
      | _ => (Raise (exn_of_fault f),
              forwarded env (aws_cloudwatch_group self)
                (aws_cloudwatch_stream self) (map splitlines texts)
                (started self c st))
      end) by (destruct f; [reflexivity .. | contradiction]).
  rewrite <- Hend. eexists. split; [reflexivity |].
  rewrite trace_forwarded. split; [reflexivity |].
  rewrite !printed_app, !stopped_app, printed_appends, stopped_appends.
  rewrite <- trace_forwarded, appended_forwarded. simpl.
  now rewrite !app_nil_r.
Qed.

Lemma stream_failure_propagates_witness :
  exists st',
    run_container_and_log
      (sample_env no_fault
         [Chunk (pyb ("a" ++ LF)); Broken NoCredentials;
          Chunk (pyb ("b" ++ LF))])
      sample_logger initial_state = (Raise NoCredentialsError, st')
    /\ printed (trace st') = [].
Proof.
  destruct (stream_failure_propagates
              (sample_env no_fault
                 [Chunk (pyb ("a" ++ LF)); Broken NoCredentials;
                  Chunk (pyb ("b" ++ LF))])
              sample_logger sample_container
              [pyb ("a" ++ LF)] [py ("a" ++ LF)] NoCredentials
              [Chunk (pyb ("b" ++ LF))] initial_state)
    as (st' & Hrun & _ & Hprint & _).
  - reflexivity.
  - reflexivity.
  - repeat constructor.
  - intros i _. reflexivity.
  - discriminate.
  - exists st'. split; [exact Hrun | exact Hprint].
Defined.

(** X9: when the interrupt has been caught and [container.stop()] itself
    fails, the run ends with the exception of [stop], after the notice and
    the call to [stop], with an exit status that is not 0. *)
Theorem stop_failure_propagates env self c pre texts rest f st :
  run_response env = inr c ->
  output env = map Chunk pre ++ Broken Interrupt :: rest ->
  Forall2 decodes pre texts ->
  (forall i, (i < 2 + length pre)%nat ->
             sink_fault env (sink_calls st + i) = None) ->
  stop_fault env = Some f ->
  exists st',
    run_container_and_log env self st = (Raise (exn_of_fault f), st')
    /\ trace st'
       = trace st ++ preamble self c
         ++ appends env (aws_cloudwatch_group self) (aws_cloudwatch_stream self)
              (ticks st) (map splitlines texts)
         ++ [Print (py "Interrupted. Stopping the container...");
             ContainerStop c]
    /\ exit_status (Raise (exn_of_fault f)) <> 0%Z.
Proof.
  intros Hrun Hout Hdec Hq Hstop.
  rewrite (run_forwards env self c st pre texts _ Hrun Hout Hdec Hq).
  rewrite loop_broken. unfold container_stop. rewrite Hstop.
  eexists. split; [reflexivity |]. split.
  - unfold record_event. cbn [trace]. rewrite trace_forwarded.
    now rewrite <- !app_assoc.
  - destruct f; discriminate.
Qed.

Lemma stop_failure_propagates_witness :
  exists st',
    run_container_and_log
      {| client_fault := None; from_env_fault := None;
         sink_fault := no_fault; run_response := inr sample_container;
         output := [Broken Interrupt]; stop_fault := Some RuntimeFailure;
         clock := fun n => Z.of_nat n |}
      sample_logger initial_state = (Raise DockerException, st').
Proof.
  destruct (stop_failure_propagates
              {| client_fault := None; from_env_fault := None;
                 sink_fault := no_fault; run_response := inr sample_container;
                 output := [Broken Interrupt];
                 stop_fault := Some RuntimeFailure;
                 clock := fun n => Z.of_nat n |}
              sample_logger sample_container [] [] [] RuntimeFailure
              initial_state)
    as (st' & Hrun & _).
  - reflexivity.
  - reflexivity.
  - constructor.
  - intros i _. reflexivity.
  - reflexivity.
  - exists st'. exact Hrun.
Defined.

(** ** What reaches the log stream *)

Lemma concat_splitlines_from n : forall text cur,
  (length text <= n)%nat ->
  concat (splitlines_from cur text) = cur ++ List.filter visible text.
Proof.
  induction n as [|n IH]; intros text cur Hn.
  - destruct text; [| simpl in Hn; lia].
    simpl. destruct cur; simpl; now rewrite ?app_nil_r.
  - destruct text as [|ch t].
    { simpl. destruct cur; simpl; now rewrite ?app_nil_r. }
    simpl in Hn. simpl. unfold visible at 1.
    destruct (is_linebreak ch) eqn:Hch; simpl.
    + f_equal. destruct t as [|c2 t2]; [reflexivity |].
      destruct ((ch =? 13) && (c2 =? 10)) eqn:Hcrlf.
      * rewrite IH by (simpl in Hn; lia). simpl.
        apply andb_true_iff in Hcrlf. destruct Hcrlf as [_ H2].
        apply N.eqb_eq in H2. subst c2. reflexivity.
      * rewrite IH by lia. reflexivity.
    + rewrite IH by lia. now rewrite <- app_assoc.
Qed.

(** The lines of a text, put end to end, are the text without its line
    boundaries. *)
Lemma concat_splitlines text :
  concat (splitlines text) = List.filter visible text.
Proof. apply (concat_splitlines_from (length text)). lia. Qed.

Lemma filter_visible_concat texts :
  concat (map (fun text => List.filter visible text) texts)
  = List.filter visible (concat texts).
Proof.
  induction texts as [|t ts IH]; [reflexivity |].
  simpl. now rewrite IH, List.filter_app.
Qed.

Lemma concat_lines texts :
  concat (concat (map splitlines texts)) = List.filter visible (concat texts).
Proof.
  rewrite <- filter_visible_concat.
  induction texts as [|t ts IH]; [reflexivity |].
  simpl. now rewrite concat_app, IH, concat_splitlines.
Qed.

(** X10: when the run forwards the whole output, the characters submitted,
    read through all log events in order, are the characters of the decoded
    output without the line boundaries: wherever the chunks are cut, no other
    character is lost, added or moved. *)
Theorem content_is_preserved env self c chunks texts st :
  run_response env = inr c ->
  output env = map Chunk chunks ->
  Forall2 decodes chunks texts ->
  (forall i, (i < 2 + length chunks)%nat ->
             sink_fault env (sink_calls st + i) = None) ->
  exists st' batches,
    run_container_and_log env self st = (Ok tt, st')
    /\ appended (trace st') = appended (trace st) ++ batches
    /\ decodes (concat chunks) (concat texts)
    /\ concat (concat batches) = List.filter visible (concat texts).
Proof.
  intros Hrun Hout Hdec Hq.
  rewrite <- (app_nil_r (map Chunk chunks)) in Hout.
  rewrite (run_forwards env self c st chunks texts [] Hrun Hout Hdec Hq).
  rewrite loop_end. eexists _, (map splitlines texts).
  split; [reflexivity |]. split; [apply appended_forwarded |].
  split; [now apply utf8_decode_concat | apply concat_lines].
Qed.

Lemma content_is_preserved_witness :
  exists st' batches,
    run_container_and_log
      (sample_env no_fault [Chunk (pyb "hel"); Chunk (pyb ("lo" ++ LF ++ "x"))])
      sample_logger initial_state = (Ok tt, st')
    /\ appended (trace st') = batches
    /\ concat (concat batches) = py "hellox".
Proof.
  destruct (content_is_preserved
              (sample_env no_fault
                 [Chunk (pyb "hel"); Chunk (pyb ("lo" ++ LF ++ "x"))])
              sample_logger sample_container
              [pyb "hel"; pyb ("lo" ++ LF ++ "x")]
              [py "hel"; py ("lo" ++ LF ++ "x")] initial_state)
    as (st' & batches & Hrun & Happ & _ & Hall).
  - reflexivity.
  - reflexivity.
  - repeat constructor.
  - intros i _. reflexivity.
  - exists st', batches. split; [exact Hrun |]. split; [exact Happ |].
    rewrite Hall. reflexivity.
Defined.

Lemma utf8_decode_ascii data :
  ascii_only data -> decodes data (map Byte.to_N data).
Proof.
  unfold decodes. induction 1 as [|b data Hb _ IH]; [reflexivity |].
  simpl. apply N.ltb_lt in Hb. rewrite Hb, IH. reflexivity.
Qed.

Lemma decodes_ascii pre texts :
  Forall2 decodes pre texts -> Forall ascii_only pre ->
  texts = map (map Byte.to_N) pre.
Proof.
  induction 1 as [|data text pre texts Hd _ IH]; intros Ha; [reflexivity |].
  inversion Ha as [|? ? Hdata Hpre]; subst.
  apply utf8_decode_ascii in Hdata. unfold decodes in Hd, Hdata.
  simpl. f_equal; [congruence | now apply IH].
Qed.

(** A run ends with [UnicodeDecodeError] only when a chunk of the output
    does not decode. *)
Lemma run_decode_error env self st :
  fst (run_container_and_log env self st) = Raise UnicodeDecodeError ->
  exists data, In (Chunk data) (output env) /\ utf8_decode data = None.
Proof.
  intros Hr.
  destruct (run_shape env self st)
    as [(f & st1 & _ & Heq & _)
       | [(st1 & f & st2 & _ & _ & Heq & _)
         | [(st1 & st2 & f & st3 & _ & _ & Heq & _)
           | (st1 & st2 & c & _ & _ & _ & Heq)]]];
    rewrite Heq in Hr; simpl in Hr;
    try (injection Hr as Hr; now apply exn_of_fault_neq_decode in Hr).
  destruct (loop_shape env self c (output env) (started self c st))
    as (r & st' & evs & Hl & _ & _ & Hbad).
  rewrite Hl in Hr. simpl in Hr. now apply Hbad.
Qed.

(** X11: output made of bytes below 128 never makes a run end with
    [UnicodeDecodeError], wherever the chunks are cut and whatever else
    fails. In every such run the batches submitted are the lines of the
    bytes of the first chunks, so every character submitted is a byte of the
    output that is not a line boundary, in the order of the output. *)
Theorem ascii_output_is_forwarded env self st :
  (forall data, In (Chunk data) (output env) -> ascii_only data) ->
  fst (run_container_and_log env self st) <> Raise UnicodeDecodeError
  /\ exists evs pre rest,
       trace (snd (run_container_and_log env self st)) = trace st ++ evs
       /\ output env = map Chunk pre ++ rest
       /\ appended evs
          = map (fun data => splitlines (map Byte.to_N data)) pre
       /\ concat (concat (appended evs))
          = List.filter visible (map Byte.to_N (concat pre)).
Proof.
  intros Hascii. split.
  - intros Hr. apply run_decode_error in Hr.
    destruct Hr as (data & Hin & Hnone).
    apply Hascii, utf8_decode_ascii in Hin. unfold decodes in Hin. congruence.
  - run_cases env self st.
    1-3: eexists _, [], (output env); (split; [exact Htrace |]);
      repeat split.
    assert (Hpre : Forall ascii_only pre).
    { apply List.Forall_forall. intros data Hin. apply Hascii.
      rewrite Hout. apply in_or_app. left. now apply in_map. }
    assert (Htexts := decodes_ascii pre texts Hdec Hpre).
    assert (Htail : appended tail = []).
    { destruct Hend as [(-> & _) | [(-> & _) | (-> & _)]]; reflexivity. }
    assert (Happ : appended
              (preamble self c
               ++ appends env (aws_cloudwatch_group self)
                    (aws_cloudwatch_stream self) (ticks st)
                    (map splitlines texts) ++ tail)
            = map splitlines texts).
    { rewrite !appended_app, appended_preamble, appended_appends, Htail.
      apply app_nil_r. }
    eexists _, pre, rest. split; [exact Htrace |]. split; [exact Hout |].
    rewrite Happ, Htexts. split.
    + now rewrite map_map.
    + rewrite concat_lines. f_equal. symmetry. apply concat_map.
Qed.

Lemma ascii_output_is_forwarded_witness :
  fst (run_container_and_log
         (sample_env (fault_at 2 ServiceFailure)
            [Chunk (pyb ("a" ++ LF ++ LF ++ "b" ++ LF))])
         sample_logger initial_state) <> Raise UnicodeDecodeError
  /\ fst (run_container_and_log
            (sample_env (fault_at 2 ServiceFailure)
               [Chunk (pyb ("a" ++ LF ++ LF ++ "b" ++ LF))])
            sample_logger initial_state) = Raise ClientError.
Proof.
  split; [| reflexivity].
  apply (ascii_output_is_forwarded
           (sample_env (fault_at 2 ServiceFailure)
              [Chunk (pyb ("a" ++ LF ++ LF ++ "b" ++ LF))])
           sample_logger initial_state).
  intros data [Hd | []]. injection Hd as <-.
  repeat constructor.
Defined.

(** ** Chunk boundaries inside CR LF, and chunks without line *)

Lemma splitlines_from_crlf l1 l2 : forall cur,
  unbroken l1 ->
  splitlines_from cur (l1 ++ 13 :: 10 :: l2)
  = (cur ++ l1) :: splitlines_from [] l2.
Proof.
  induction l1 as [|ch l1 IH]; intros cur Hl.
  - simpl. now rewrite app_nil_r.
  - inversion Hl as [|? ? Hch Hl']; subst.
    rewrite <- app_comm_cons, splitlines_from_char by assumption.
    rewrite IH by assumption. now rewrite <- app_assoc.
Qed.

(** X12: when a chunk ends between the carriage return and the line feed
    of a CR LF, the carriage return closes the last line of that chunk and
    the line feed opens the next chunk with an empty line: the call made for
    the next chunk, whatever becomes of it, starts with an empty log event
    that the same bytes in one chunk would not produce. *)
Theorem crlf_across_chunks env self c d1 d2 l1 l2 st :
  run_response env = inr c ->
  output env = [Chunk d1; Chunk d2] ->
  decodes d1 (l1 ++ [13]) -> decodes d2 (10 :: l2) ->
  unbroken l1 -> l1 <> [] ->
  (forall i, (i < 3)%nat -> sink_fault env (sink_calls st + i) = None) ->
  exists r st',
    run_container_and_log env self st = (r, st')
    /\ appended (trace st')
       = appended (trace st) ++ [[l1]; [] :: splitlines l2]
    /\ decodes (d1 ++ d2) (l1 ++ 13 :: 10 :: l2)
    /\ splitlines (l1 ++ 13 :: 10 :: l2) = l1 :: splitlines l2.
Proof.
  intros Hrun Hout H1 H2 Hl Hne Hq.
  assert (Hfirst : splitlines (l1 ++ [13]) = [l1])
    by (unfold splitlines; now rewrite splitlines_from_line).
  assert (Hsecond : splitlines (10 :: l2) = [] :: splitlines l2)
    by (unfold splitlines; now rewrite splitlines_from_boundary).
  assert (Hwhole : decodes (d1 ++ d2) (l1 ++ 13 :: 10 :: l2)
                   /\ splitlines (l1 ++ 13 :: 10 :: l2) = l1 :: splitlines l2).
  { split.
    - replace (l1 ++ 13 :: 10 :: l2) with ((l1 ++ [13]) ++ 10 :: l2)
        by now rewrite <- app_assoc.
      now apply utf8_decode_app.
    - unfold splitlines. now rewrite splitlines_from_crlf. }
  assert (Hcalls : map splitlines ([l1 ++ [13]] ++ [10 :: l2])
                   = [[l1]; [] :: splitlines l2])
    by (simpl; now rewrite Hfirst, Hsecond).
  destruct (sink_fault env (sink_calls st + 2 + length [d1])) as [f|] eqn:Hf.
  - assert (Hout' : output env = map Chunk [d1] ++ Chunk d2 :: []) by exact Hout.
    rewrite (run_fault_at env self c st [d1] [l1 ++ [13]] d2 (10 :: l2) [] f
               Hrun Hout')
      by (try assumption; repeat constructor; assumption).
    rewrite Hcalls.
    destruct f; rewrite ?container_stop_run; eexists _, _;
      (split; [reflexivity |]); (split; [| exact Hwhole]);
      unfold record_event; cbn [trace];
      rewrite ?appended_app, appended_forwarded; simpl;
      now rewrite ?app_nil_r.
  - assert (Hout' : output env = map Chunk [d1; d2] ++ []) by exact Hout.
    assert (Hdec : Forall2 decodes [d1; d2] [l1 ++ [13]; 10 :: l2])
      by (repeat constructor; assumption).
    rewrite (run_forwards env self c st [d1; d2] _ [] Hrun Hout' Hdec).
    + rewrite loop_end. eexists _, _. split; [reflexivity |].
      split; [| exact Hwhole].
      rewrite appended_forwarded. now rewrite <- Hcalls.
    + intros i Hi. simpl in Hi, Hf.
      destruct (Nat.eq_dec i 3%nat) as [-> | Hne3]; [| apply Hq; lia].
      replace (sink_calls st + 3)%nat with (sink_calls st + 2 + 1)%nat by lia.
      exact Hf.
Qed.

Lemma crlf_across_chunks_witness :
  exists st',
    run_container_and_log
      (sample_env (fault_at 3 ServiceFailure)
         [Chunk (pyb "x" ++ [Byte.x0d]); Chunk (Byte.x0a :: pyb "y")])
      sample_logger initial_state = (Raise ClientError, st')
    /\ appended (trace st') = [[py "x"]; [[]; py "y"]]
    /\ splitlines (py "x" ++ 13 :: 10 :: py "y") = [py "x"; py "y"].
Proof.
  destruct (crlf_across_chunks
              (sample_env (fault_at 3 ServiceFailure)
                 [Chunk (pyb "x" ++ [Byte.x0d]); Chunk (Byte.x0a :: pyb "y")])
              sample_logger sample_container
              (pyb "x" ++ [Byte.x0d]) (Byte.x0a :: pyb "y")
              (py "x") (py "y") initial_state)
    as (r & st' & Hrun & Happ & _ & Hwhole).
  - reflexivity.
  - reflexivity.
  - reflexivity.
  - reflexivity.
  - repeat constructor.
  - discriminate.
  - intros [|[|[|i]]] Hi; [reflexivity .. | simpl in Hi; lia].
  - exists st'. split; [| split; [exact Happ | exact Hwhole]].
    pose proof (f_equal fst Hrun) as Hr. cbn [fst] in Hr.
    rewrite Hrun. f_equal. rewrite <- Hr. reflexivity.
Defined.

Lemma splitlines_from_nil_inv text : forall cur,
  splitlines_from cur text = [] -> cur = [] /\ text = [].
Proof.
  induction text as [|ch t IH]; intros cur H.
  - simpl in H. destruct cur; [now split | discriminate].
  - simpl in H. destruct (is_linebreak ch); [discriminate |].
    apply IH in H. destruct H as [H _].
    apply app_eq_nil in H. destruct H as [_ H]. discriminate.
Qed.

Lemma utf8_decode_nil_inv data : decodes data [] -> data = [].
Proof.
  unfold decodes. destruct data as [|b1 t1]; [reflexivity |]. simpl.
  repeat match goal with
         | |- (if ?c then _ else _) = _ -> _ => destruct c
         | |- match ?t with [] => _ | _ :: _ => _ end = _ -> _ => destruct t
         | |- _ <$> _ = Some [] -> _ =>
           let H := fresh in
           intros H; apply fmap_Some in H; destruct H as (? & _ & ?);
           discriminate
         | |- None = _ -> _ => discriminate
         end.
Qed.

(** X13: every chunk that decodes leads to exactly one [put_log_events]
    call, whatever becomes of the call, with one log event per line of the
    chunk. A chunk without any line is not skipped: the call is made with an
    empty list of log events, and that happens exactly when the chunk is the
    empty byte string. *)
Theorem chunk_without_line env self data text st :
  decodes data text ->
  exists r st' evs rest,
    forward_chunk env self data st = (r, st')
    /\ trace st'
       = trace st
         ++ PutLogEvents (aws_cloudwatch_group self)
              (aws_cloudwatch_stream self) evs :: rest
    /\ appended rest = []
    /\ map message evs = splitlines text
    /\ (evs = [] <-> data = []).
Proof.
  intros Hd.
  assert (Hnil : stamp env (ticks st) (splitlines text) = [] <-> data = []).
  { split.
    - intros Hnil.
      assert (Hlines : splitlines text = []).
      { rewrite <- (stamp_message env (splitlines text) (ticks st)).
        now rewrite Hnil. }
      apply splitlines_from_nil_inv in Hlines. destruct Hlines as [_ ->].
      now apply utf8_decode_nil_inv.
    - intros ->. unfold decodes in Hd. simpl in Hd.
      injection Hd as <-. reflexivity. }
  destruct (sink_fault env (sink_calls st)) as [f|] eqn:Hq.
  - rewrite (forward_chunk_fault env self data text st f Hd Hq).
    destruct f.
    + eexists _, _, _, [_]. split; [reflexivity |]. split.
      * simpl. rewrite <- app_assoc. reflexivity.
      * split; [reflexivity |]. split; [apply stamp_message | exact Hnil].
    + eexists _, _, _, []. split; [reflexivity |]. split; [reflexivity |].
      split; [reflexivity |]. split; [apply stamp_message | exact Hnil].
    + eexists _, _, _, []. split; [reflexivity |]. split; [reflexivity |].
      split; [reflexivity |]. split; [apply stamp_message | exact Hnil].
    + eexists _, _, _, []. split; [reflexivity |]. split; [reflexivity |].
      split; [reflexivity |]. split; [apply stamp_message | exact Hnil].
  - destruct (decide ((aws_cloudwatch_group self, aws_cloudwatch_stream self)
                      ∈ streams st)) as [Hs|Hs].
    + rewrite (forward_chunk_ok env self data text st Hd Hq Hs).
      eexists _, _, _, []. split; [reflexivity |]. split; [reflexivity |].
      split; [reflexivity |]. split; [apply stamp_message | exact Hnil].
    + unfold forward_chunk, bind, decode. rewrite Hd. unfold ret.
      rewrite send_logs_missing by assumption.
      eexists _, _, _, []. split; [reflexivity |]. split; [reflexivity |].
      split; [reflexivity |]. split; [apply stamp_message | exact Hnil].
Qed.

Lemma chunk_without_line_witness :
  exists r st',
    forward_chunk (sample_env (fault_at 2 ServiceFailure) []) sample_logger []
      (started sample_logger sample_container initial_state) = (r, st')
    /\ appended (trace st') = [[]].
Proof.
  destruct (chunk_without_line (sample_env (fault_at 2 ServiceFailure) [])
              sample_logger [] []
              (started sample_logger sample_container initial_state))
    as (r & st' & evs & rest & Hrun & Htrace & Hrest & _ & Hnil).
  - reflexivity.
  - exists r, st'. split; [exact Hrun |].
    rewrite Htrace, (proj2 Hnil eq_refl).
    rewrite appended_app. simpl. rewrite Hrest. reflexivity.
Defined.

(** ** [main] *)

(** X14: [main] builds the CloudWatch client with the credentials and the
    region of the command line, then the Docker client, then runs the
    logger. When one of the two cannot be built [main] ends with that
    exception before any log group is created or container started. When
    both are built the values of the command line go to the calls they are
    meant for: the group name to the creation of the log group, the group
    and stream names to the creation of the log stream and to every
    submission, the image and the command to the launch of the container. *)
Theorem main_uses_command_line env args st :
  let built :=
    Boto3Client (py "logs") (arg_aws_access_key_id args)
      (arg_aws_secret_access_key args) (arg_aws_region args) in
  (forall f,
     client_fault env = Some f ->
     main env args st = (Raise (exn_of_fault f), record_event built st))
  /\ (forall f,
      client_fault env = None -> from_env_fault env = Some f ->
      main env args st
      = (Raise (exn_of_fault f),
         record_event DockerFromEnv (record_event built st)))
  /\ (forall c,
      client_fault env = None -> from_env_fault env = None ->
      sink_fault env (sink_calls st) = None ->
      sink_fault env (S (sink_calls st)) = None ->
      run_response env = inr c ->
      exists rest,
        trace (snd (main env args st))
        = trace st
          ++ [built; DockerFromEnv;
              CreateLogGroup (arg_aws_cloudwatch_group args);
              CreateLogStream (arg_aws_cloudwatch_group args)
                (arg_aws_cloudwatch_stream args);
              ContainersRun (arg_docker_image args)
                [py "bash"; py "-c";
                 py "python -u -c '" ++ arg_bash_command args ++ py "'"]
                true true true;
              ContainerLogs c true true]
          ++ rest
        /\ Forall (fun t => t = (arg_aws_cloudwatch_group args,
                                 arg_aws_cloudwatch_stream args))
             (targets rest)).
Proof.
  intros built. split; [| split].
  - intros f Hc.
    unfold main, CloudWatchLogger_init, create_cloudwatch_client,
      boto3_client, bind.
    now rewrite Hc.
  - intros f Hc Hd.
    unfold main, CloudWatchLogger_init, create_cloudwatch_client,
      boto3_client, DockerRunner_init, docker_from_env, bind, ret.
    now rewrite Hc, Hd.
  - intros c' Hc Hd Hq0' Hq1' Hresp'.
    rewrite main_runs_logger by assumption. fold built.
    match goal with
    | |- context [run_container_and_log env ?l ?s0] =>
      set (logger := l); set (st0 := s0)
    end.
    run_cases env logger st0; subst st0; simpl in *; try congruence.
    assert (c = c') as -> by congruence.
    exists (appends env (arg_aws_cloudwatch_group args)
              (arg_aws_cloudwatch_stream args) (ticks st)
              (map splitlines texts) ++ tail).
    split.
    + rewrite Htrace. now rewrite <- !app_assoc.
    + rewrite targets_app. apply Forall_app. split.
      * apply (targets_appends env (arg_aws_cloudwatch_group args)
                 (arg_aws_cloudwatch_stream args)).
      * destruct Hend as [(-> & _) | [(-> & _) | (-> & _)]]; constructor.
Qed.

Lemma main_uses_command_line_witness :
  exists st',
    main {| client_fault := None; from_env_fault := Some RuntimeFailure;
            sink_fault := no_fault; run_response := inr sample_container;
            output := []; stop_fault := None; clock := fun n => Z.of_nat n |}
      {| arg_docker_image := py "python";
         arg_bash_command := py "print(1)";
         arg_aws_cloudwatch_group := py "group";
         arg_aws_cloudwatch_stream := py "stream";
         arg_aws_access_key_id := py "AKIA";
         arg_aws_secret_access_key := py "secret";
         arg_aws_region := py "eu-west-1" |} initial_state
    = (Raise DockerException, st')
    /\ trace st'
       = [Boto3Client (py "logs") (py "AKIA") (py "secret") (py "eu-west-1");
          DockerFromEnv].
Proof.
  destruct (main_uses_command_line
              {| client_fault := None; from_env_fault := Some RuntimeFailure;
                 sink_fault := no_fault; run_response := inr sample_container;
                 output := []; stop_fault := None;
                 clock := fun n => Z.of_nat n |}
              {| arg_docker_image := py "python";
                 arg_bash_command := py "print(1)";
                 arg_aws_cloudwatch_group := py "group";
                 arg_aws_cloudwatch_stream := py "stream";
                 arg_aws_access_key_id := py "AKIA";
                 arg_aws_secret_access_key := py "secret";
                 arg_aws_region := py "eu-west-1" |} initial_state)
    as (_ & Hdocker & _).
  eexists. split; [exact (Hdocker RuntimeFailure eq_refl eq_refl) |].
  reflexivity.
Defined.
